(** * sec_final.py: the SEC 8-K product-mention extractor

    A shallow embedding of [SECFilingExtractor] (src/sec_final.py) and the
    properties of its pipeline steps.

    Text.  A Python [str] is modelled as a list of characters, a character
    being a code point below 256 ([ascii]: the Latin-1 block of Unicode, of
    which the 7-bit range is the part the examples use).  On that range
    [str.lower] maps one character to one character, so positions found in
    [text.lower()] are positions of [text].  Over all of Unicode this fails
    for one code point, U+0130, whose lower-case form is two code points:
    module [Unicode] has the detector over all code points, and what rests
    on positions is stated there.  The character classes below follow
    Python's tables for these code points. *)

From Stdlib Require Import ZArith Ascii String List Lia Bool Sorted.
From stdpp Require Import base option list gmap strings.
Import ListNotations.

Local Open Scope Z_scope.

Abbreviation str := (list ascii).

(** A Python string literal. *)
Definition py (s : string) : str := list_ascii_of_string s.

(** ** Characters *)

Definition ord (c : ascii) : Z := Z.of_N (N_of_ascii c).
Definition chr (n : Z) : ascii := ascii_of_N (Z.to_N n).

Definition in_range (lo hi : Z) (c : ascii) : bool :=
  (lo <=? ord c) && (ord c <=? hi).

(** [A-Z], [a-z], [0-9] of the regular expressions. *)
Definition is_AZ (c : ascii) : bool := in_range 65 90 c.
Definition is_az (c : ascii) : bool := in_range 97 122 c.
Definition is_09 (c : ascii) : bool := in_range 48 57 c.
(** [[a-zA-Z0-9]] *)
Definition is_alnum (c : ascii) : bool := is_az c || is_AZ c || is_09 c.

(** [str.isspace] and the regular expressions' [\s]: TAB LF VT FF CR,
    FS GS RS US, SPACE, NEL and NBSP. *)
Definition is_space (c : ascii) : bool :=
  in_range 9 13 c || in_range 28 32 c || (ord c =? 133) || (ord c =? 160).

(** The line boundaries of [str.splitlines]: LF VT FF CR, FS GS RS, NEL. *)
Definition is_linebreak (c : ascii) : bool :=
  in_range 10 13 c || in_range 28 30 c || (ord c =? 133).

(** Upper-case letters with a lower-case partner: A-Z and, in Latin-1,
    U+00C0..U+00DE without the multiplication sign U+00D7. *)
Definition has_lower (c : ascii) : bool :=
  is_AZ c || (in_range 192 222 c && negb (ord c =? 215)).

Definition lower_char (c : ascii) : ascii :=
  if has_lower c then chr (ord c + 32) else c.

(** The letters [lower_char] produces, sent back. *)
Definition has_upper (c : ascii) : bool :=
  is_az c || (in_range 224 254 c && negb (ord c =? 247)).

Definition upper_char (c : ascii) : ascii :=
  if has_upper c then chr (ord c - 32) else c.

(** ** String primitives *)

Definition len {A : Type} (s : list A) : Z := Z.of_nat (length s).

(** The truth value of a string or list: not empty. *)
Definition nonempty {A : Type} (s : list A) : bool :=
  match s with
  | [] => false
  | _ :: _ => true
  end.

(** [s.lower()] *)
Definition lower (s : str) : str := map lower_char s.

Definition eqc (a b : ascii) : bool := Ascii.eqb a b.

(** [s.startswith(k)] *)
Fixpoint startswith (k s : str) : bool :=
  match k, s with
  | [], _ => true
  | _ :: _, [] => false
  | a :: k', b :: s' => eqc a b && startswith k' s'
  end.

(** [k in s] *)
Fixpoint py_in (k s : str) : bool :=
  startswith k s ||
  match s with
  | [] => false
  | _ :: s' => py_in k s'
  end.

(** [s.find(k)], counted from offset [i]: the lowest index at which [k]
    starts, [-1] when there is none. *)
Fixpoint find_from (k s : str) (i : Z) : Z :=
  if startswith k s then i
  else match s with
       | [] => -1
       | _ :: s' => find_from k s' (i + 1)
       end.

Definition find (s k : str) : Z := find_from k s 0.

(** A slice bound as Python reads it: negative bounds count from the end,
    and every bound is clamped to [0, len]. *)
Definition slice_index (n i : Z) : Z :=
  if i <? 0 then Z.max 0 (i + n) else Z.min i n.

(** [s[a:b]] *)
Definition slice {A : Type} (s : list A) (a b : Z) : list A :=
  let a' := slice_index (len s) a in
  let b' := slice_index (len s) b in
  take (Z.to_nat (b' - a')) (drop (Z.to_nat a') s).

(** [s[a:]] *)
Definition slice_from (s : str) (a : Z) : str :=
  drop (Z.to_nat (slice_index (len s) a)) s.

(** The number a string of decimal digits writes. *)
Definition int_of_digits (s : str) : Z :=
  fold_left (fun acc c => 10 * acc + (ord c - 48)) s 0.

(** [s.lstrip()], [s.rstrip()], [s.strip()] *)
Fixpoint lstrip (s : str) : str :=
  match s with
  | [] => []
  | c :: s' => if is_space c then lstrip s' else s
  end.

Definition rstrip (s : str) : str := rev (lstrip (rev s)).

Definition strip (s : str) : str := rstrip (lstrip s).

(** ** Configuration *)

Module Config.
Definition MAX_FILINGS_PER_COMPANY : Z := 5.
Definition MAX_COMPANIES : Z := 5.
Definition PRODUCT_KEYWORDS : list str :=
  [ py "new product"; py "launch"; py "announce"; py "introduce";
    py "unveil"; py "release"; py "innovation"; py "technology" ].
End Config.

(** ** MentionDetector: [contains_product_info] *)

(** The context window around a match at [keyword_index]. *)
Definition context_window {A : Type} (text : list A) (keyword_index : Z)
  : list A :=
  let start := Z.max 0 (keyword_index - 100) in
  let end_ := Z.min (len text) (keyword_index + 200) in
  slice text start end_.

(** The [for keyword in ...] loop, over the keywords still to try. *)
Fixpoint scan_keywords (text text_lower : str) (keywords : list str)
  : bool * str * str :=
  match keywords with
  | [] => (false, [], [])
  | keyword :: rest =>
      if py_in keyword text_lower then
        let keyword_index := find text_lower keyword in
        (true, context_window text keyword_index, keyword)
      else scan_keywords text text_lower rest
  end.

Definition contains_product_info_with (keywords : list str) (text : str)
  : bool * str * str :=
  scan_keywords text (lower text) keywords.

Definition contains_product_info (text : str) : bool * str * str :=
  contains_product_info_with Config.PRODUCT_KEYWORDS text.

(** ** Exceptions

    The exceptions raised in the code modelled here: by a lookup in a
    payload of string arrays, and by [str.format]. *)
Inductive exn : Type :=
| KeyError (key : str)
| IndexError
| ValueError.

Definition result (A : Type) : Type := exn + A.

Definition ret {A : Type} (x : A) : result A := inr x.
Definition raise {A : Type} (e : exn) : result A := inl e.
Definition bind {A B : Type} (m : result A) (k : A -> result B) : result B :=
  match m with
  | inl e => inl e
  | inr x => k x
  end.

Notation "x <- m ;; k" := (bind m (fun x => k))
  (at level 100, m at next level, right associativity).

(** [d[key]] on a JSON object field that may be absent. *)
Definition getitem {A : Type} (key : string) (field : option A) : result A :=
  match field with
  | Some v => ret v
  | None => raise (KeyError (py key))
  end.

(** [l[i]] for an index [i >= 0]. *)
Definition index {A : Type} (l : list A) (i : nat) : result A :=
  match l !! i with
  | Some v => ret v
  | None => raise IndexError
  end.

(** ** [str.format]

    [template.format(arg0, arg1, ...)] for templates whose replacement fields are
    plain names: no conversion, no format specification, no attribute or
    item access, which the templates of the extractor do not use.  A doubled
    brace stands for one brace; a single opening brace starts a field, which
    runs to the next closing brace.  An empty field name takes the next
    positional argument, a name made of digits the argument at that index,
    and any other name is looked up among the keyword arguments, of which
    there are none here. *)

Definition lbrace : ascii := "{"%char.
Definition rbrace : ascii := "}"%char.

(** How the fields seen so far were numbered. *)
Inductive numbering : Type :=
| Unset
| Automatic (next : nat)
| Manual.

Definition is_index (name : str) : bool := nonempty name && forallb is_09 name.

(** The value of the field [name], and the numbering after it. *)
Definition field_value (args : list str) (mode : numbering) (name : str)
  : result (str * numbering) :=
  if negb (nonempty name) then
    match mode with
    | Manual => raise ValueError
    | Unset => v <- index args 0 ;; ret (v, Automatic 1)
    | Automatic n => v <- index args n ;; ret (v, Automatic (S n))
    end
  else if is_index name then
    match mode with
    | Automatic _ => raise ValueError
    | _ => v <- index args (Z.to_nat (int_of_digits name)) ;; ret (v, Manual)
    end
  else raise (KeyError name).

(** The template is read from left to right; [field] holds, in reverse, the
    characters of the field name being read, if one is open.  The first
    error met ends the call. *)
Fixpoint format_from (args : list str) (mode : numbering) (field : option str)
  (template : str) : result str :=
  match template with
  | [] =>
      match field with
      | None => ret []
      | Some _ => raise ValueError
      end
  | c :: rest =>
      match field with
      | Some name =>
          if eqc c rbrace then
            r <- field_value args mode (rev name) ;;
            out <- format_from args (snd r) None rest ;;
            ret (fst r ++ out)
          else if eqc c lbrace then raise ValueError
          else format_from args mode (Some (c :: name)) rest
      | None =>
          if eqc c lbrace then
            match rest with
            | d :: rest' =>
                if eqc d lbrace then
                  out <- format_from args mode None rest' ;;
                  ret (lbrace :: out)
                else format_from args mode (Some []) rest
            | [] => raise ValueError
            end
          else if eqc c rbrace then
            match rest with
            | d :: rest' =>
                if eqc d rbrace then
                  out <- format_from args mode None rest' ;;
                  ret (rbrace :: out)
                else raise ValueError
            | [] => raise ValueError
            end
          else
            out <- format_from args mode None rest ;;
            ret (c :: out)
      end
  end.

Definition format (template : str) (args : list str) : result str :=
  format_from args Unset None template.

(** ** Regular expressions

    The fragment of [re] the extractor uses, with the backtracking order of
    the matcher: [matches] lists, most preferred first, the suffixes left
    after each way the expression can match a prefix of the input. *)

Inductive regex : Type :=
| Eps
| Lit (c : ascii)                        (* a literal character *)
| Cls (neg : bool) (p : ascii -> bool)   (* [...], [^...], \s *)
| Cat (r1 r2 : regex)
| Rep (greedy : bool) (lo : nat) (hi : option nat) (r : regex).
                                         (* r{lo,hi}; [hi = None]: no bound *)

Definition Star (r : regex) : regex := Rep true 0%nat None r.
Definition Plus (r : regex) : regex := Rep true 1%nat None r.

(** The expression the text [re.escape(k)] compiles to: the characters of
    [k], each matched literally. *)
Fixpoint literal (k : str) : regex :=
  match k with
  | [] => Eps
  | c :: k' => Cat (Lit c) (literal k')
  end.

(** A literal under [re.IGNORECASE] matches the characters with the same
    lower-case form. *)
Definition lit_match (ic : bool) (c d : ascii) : bool :=
  if ic then eqc (lower_char c) (lower_char d) else eqc c d.

(** A class under [re.IGNORECASE] holds the case partners of its members;
    negation is applied after that. *)
Definition cls_match (ic neg : bool) (p : ascii -> bool) (d : ascii) : bool :=
  xorb neg (if ic then p d || p (lower_char d) || p (upper_char d) else p d).

Definition one_char (ok : ascii -> bool) (s : str) : list str :=
  match s with
  | d :: t => if ok d then [t] else []
  | [] => []
  end.

(** The number of iterations a repetition can make on [s]: every iteration
    of the bodies used here consumes a character. *)
Definition rep_bound (hi : option nat) (s : str) : nat :=
  match hi with
  | Some h => h
  | None => length s
  end.

(** [n] more iterations allowed, [lo] still required. *)
Fixpoint rep_with (step : str -> list str) (greedy : bool) (n lo : nat)
  (s : str) : list str :=
  let stop := match lo with O => [s] | S _ => [] end in
  match n with
  | O => stop
  | S n' =>
      let more := flat_map (rep_with step greedy n' (Nat.pred lo)) (step s) in
      match lo with
      | O => if greedy then more ++ stop else stop ++ more
      | S _ => more
      end
  end.

Fixpoint matches (ic : bool) (r : regex) (s : str) : list str :=
  match r with
  | Eps => [s]
  | Lit c => one_char (lit_match ic c) s
  | Cls neg p => one_char (cls_match ic neg p) s
  | Cat r1 r2 => flat_map (matches ic r2) (matches ic r1 s)
  | Rep greedy lo hi r' =>
      rep_with (matches ic r') greedy (rep_bound hi s) lo s
  end.

(** A pattern with one capturing group: [before(group)after]. *)
Record pattern : Type := {
  before : regex;
  group : regex;
  after : regex;
  ignorecase : bool
}.

(** The values of [group(1)] for the ways the pattern matches at the start
    of [s], most preferred first. *)
Definition match_at (p : pattern) (s : str) : list str :=
  flat_map (fun t1 =>
    flat_map (fun t2 =>
      map (fun _ => take (length t1 - length t2)%nat t1)
          (matches (ignorecase p) (after p) t2))
      (matches (ignorecase p) (group p) t1))
    (matches (ignorecase p) (before p) s).

(** [pattern.search(s)], giving [match.group(1)]: the leftmost start at which
    the pattern matches, and there the preferred match. *)
Fixpoint search (p : pattern) (s : str) : option str :=
  match head (match_at p s) with
  | Some g => Some g
  | None =>
      match s with
      | [] => None
      | _ :: s' => search p s'
      end
  end.

(** ** ProductNameExtractor: [extract_product_name] *)

Definition dquote : ascii := chr 34.
Definition is_quote (c : ascii) : bool := eqc c dquote.

(** [re.escape(k)]: a backslash in front of each character that has a
    meaning in a pattern. *)
Definition backslash : ascii := chr 92.

Definition is_special (c : ascii) : bool :=
  existsb (eqc c)
    (py "()[]{}?*+-|^$.&~# " ++ [backslash; chr 9; chr 10; chr 13; chr 11; chr 12]).

Definition re_escape (k : str) : str :=
  flat_map (fun c => if is_special c then [backslash; c] else [c]) k.

(** The template of pattern 1: the field 0, then a run of characters other
    than the double quote, a double quote, the group (one or more characters
    other than the double quote), a double quote. *)
Definition quote_template : str :=
  py "{0}[^" ++ [dquote] ++ py "]*" ++ [dquote]
    ++ py "([^" ++ [dquote] ++ py "]+)" ++ [dquote].

(** The template of pattern 3, of line 274.  Its last repetition is written
    with single braces, which [str.format] reads as a field named 0,4. *)
Definition the_template : str :=
  py "{0}[^.]*?the\s+([A-Z][a-zA-Z0-9]*(?:\s+[a-zA-Z0-9]+){0,4})".

(** Pattern 1 compiled, with [re.IGNORECASE]: the escaped keyword, any run
    of characters other than the double quote, a double quote, the group
    (one or more characters other than the double quote), a double quote. *)
Definition quote_pattern (keyword : str) : pattern :=
  {| before := Cat (literal keyword)
                 (Cat (Star (Cls true is_quote)) (Lit dquote));
     group := Plus (Cls true is_quote);
     after := Lit dquote;
     ignorecase := true |}.

(** Pattern 2, case-sensitive; the whole pattern is the group:
    [A-Z] [a-zA-Z0-9]* ( \s+ [A-Z] [a-zA-Z0-9]* ){0,5} *)
Definition cap_words_pattern : pattern :=
  {| before := Eps;
     group := Cat (Cls false is_AZ)
                (Cat (Star (Cls false is_alnum))
                   (Rep true 0%nat (Some 5%nat)
                      (Cat (Plus (Cls false is_space))
                         (Cat (Cls false is_AZ) (Star (Cls false is_alnum))))));
     after := Eps;
     ignorecase := false |}.

(** [context[context.lower().find(keyword) + len(keyword):].strip()] *)
Definition words_after (context keyword : str) : str :=
  strip (slice_from context (find (lower context) keyword + len keyword)).

Definition heuristic1 (context keyword : str) : option str :=
  search (quote_pattern keyword) context.
Definition heuristic2 (context keyword : str) : option str :=
  search cap_words_pattern (words_after context keyword).

Section Extractor.
(** [re.compile(source, re.IGNORECASE).search(context)], giving the text of
    group 1, for the pattern text [source] that formatting the template of
    lines 274 and 275 would give: lines 275 to 278 compile and apply it. *)
Variable compiled_search : str -> str -> option str.

Definition extract_product_name_with (context keyword : str) : result str :=
  _ <- format quote_template [re_escape keyword] ;;
  match heuristic1 context keyword with
  | Some g => ret (strip g)
  | None =>
      match heuristic2 context keyword with
      | Some g => ret (strip g)
      | None =>
          source <- format the_template [re_escape keyword] ;;
          match compiled_search source context with
          | Some g => ret (strip g)
          | None => ret (py "New Product")
          end
      end
  end.
End Extractor.

(** Formatting the template of pattern 3 raises, so what a search for the
    compiled pattern would give plays no part: [extract_product_name] takes
    a search that never matches. *)
Definition extract_product_name (context keyword : str) : result str :=
  extract_product_name_with (fun _ _ => None) context keyword.

(** ** TextFetcher: the text cleaning of [get_filing_text] *)

(** [s.splitlines()]: a line ends at a line boundary, CR LF counts as one
    boundary, and a boundary at the very end opens no further line. *)
Fixpoint splitlines (s : str) : list str :=
  match s with
  | [] => []
  | c :: s' =>
      if is_linebreak c then
        [] :: match s' with
              | d :: s'' =>
                  if eqc c (chr 13) && eqc d (chr 10) then splitlines s''
                  else splitlines s'
              | [] => []
              end
      else
        match splitlines s' with
        | [] => [[c]]
        | l :: ls => (c :: l) :: ls
        end
  end.

Definition space : ascii := chr 32.

(** [s.split(sep)] for the separator of two spaces: the separator is looked
    for from the left, and occurrences do not overlap. *)
Fixpoint split2 (s : str) : list str :=
  match s with
  | [] => [[]]
  | c :: s' =>
      let keep :=
        match split2 s' with
        | [] => [[c]]
        | f :: fs => (c :: f) :: fs
        end in
      match s' with
      | d :: s'' => if eqc c space && eqc d space then [] :: split2 s'' else keep
      | [] => keep
      end
  end.

Definition newline : ascii := chr 10.

(** [sep.join(parts)] for the separator of one newline. *)
Fixpoint join_lines (parts : list str) : str :=
  match parts with
  | [] => []
  | [x] => x
  | x :: rest => x ++ newline :: join_lines rest
  end.

(** The three statements under [# Clean the text]. *)
Definition clean_text (text : str) : str :=
  let lines := map strip (splitlines text) in
  let chunks := map strip (flat_map split2 lines) in
  join_lines (List.filter nonempty chunks).

(** ** HTTP replies

    A request either raises ([None]) or gives a response with a status code
    and a body; [json = None] is a body whose decoding raises. *)
Record response (A : Type) : Type := {
  status_code : Z;
  json : option A
}.
Arguments status_code {A} _.
Arguments json {A} _.

(** [get_filing_text], on the reply to the GET of the document; the body is
    the text [soup.get_text()] gives once scripts and styles are removed. *)
Definition get_filing_text (reply : option (response str)) : str :=
  match reply with
  | None => []
  | Some r =>
      if negb (status_code r =? 200) then []
      else match json r with
           | None => []
           | Some text => clean_text text
           end
  end.

(** ** TickerResolver: [get_company_tickers] *)

Record company : Type := { ticker : str; cik_str : Z }.

Definition digit_char (d : Z) : ascii := chr (48 + d).

Fixpoint digits_fuel (fuel : nat) (n : Z) : str :=
  match fuel with
  | O => []
  | S f =>
      if n <? 10 then [digit_char n]
      else digits_fuel f (n / 10) ++ [digit_char (n mod 10)]
  end.

(** The decimal digits of [n >= 0]; a number has at most [log2 n + 1] of
    them. *)
Definition digits (n : Z) : str := digits_fuel (S (Z.to_nat (Z.log2 n))) n.

(** [str(n)] for an integer. *)
Definition str_int (n : Z) : str :=
  if n <? 0 then chr 45 :: digits (- n) else digits n.

Definition is_sign (c : ascii) : bool := eqc c (chr 43) || eqc c (chr 45).

(** [s.zfill(width)]: zeros are put in front, after a leading sign. *)
Definition zfill (width : Z) (s : str) : str :=
  if width <=? len s then s
  else
    let zeros := replicate (Z.to_nat (width - len s)) (chr 48) in
    match s with
    | c :: s' => if is_sign c then c :: zeros ++ s' else zeros ++ s
    | [] => zeros
    end.

(** The loop over [tickers_data.items()]. *)
Fixpoint tickers_loop (items : list (str * company)) (tickers_dict : gmap str str)
  : gmap str str :=
  match items with
  | [] => tickers_dict
  | (_, c) :: rest =>
      tickers_loop rest (<[ticker c := zfill 10 (str_int (cik_str c))]> tickers_dict)
  end.

Definition get_company_tickers (reply : option (response (list (str * company))))
  : gmap str str :=
  match reply with
  | None => ∅
  | Some r =>
      if negb (status_code r =? 200) then ∅
      else match json r with
           | None => ∅
           | Some tickers_data => tickers_loop tickers_data ∅
           end
  end.

(** ** FilingLister: [get_recent_filings] *)

(** [data['filings']['recent']]: the parallel arrays, each key present or
    not. *)
Record recent_filings : Type := {
  form : option (list str);
  accessionNumber : option (list str);
  filingDate : option (list str);
  primaryDocument : option (list str)
}.

(** The submissions document: ['filings'] missing, ['recent'] missing under
    it, or the recent-filings object. *)
Inductive submissions : Type :=
| NoFilings
| NoRecent
| Recent (recent : recent_filings).

Module Filing.
(** One entry of [filings]. *)
Record t : Type := {
  accessionNumber : str;
  filingDate : str;
  indexUrl : str;
  docUrl : str
}.
End Filing.

(** [s.replace('-', '')] *)
Definition remove_dashes (s : str) : str :=
  List.filter (fun c => negb (eqc c (chr 45))) s.

Definition archive_dir (cik accession_number : str) : str :=
  py "https://www.sec.gov/Archives/edgar/data/" ++ cik ++ py "/"
    ++ remove_dashes accession_number ++ py "/".

Definition make_filing (cik accession_number filing_date primary_doc : str)
  : Filing.t :=
  {| Filing.accessionNumber := accession_number;
     Filing.filingDate := filing_date;
     Filing.indexUrl :=
       archive_dir cik accession_number ++ accession_number ++ py "-index.htm";
     Filing.docUrl :=
       if nonempty primary_doc
       then archive_dir cik accession_number ++ primary_doc
       else [] |}.

(** The [for i, form in enumerate(recent_filings['form'])] loop: [forms] is
    what is left of the array from position [i] on, [filings] the list built
    so far. *)
Fixpoint filings_loop (recent : recent_filings) (cik form_type : str)
  (count : Z) (forms : list str) (i : nat) (filings : list Filing.t)
  : result (list Filing.t) :=
  match forms with
  | [] => ret filings
  | form_i :: rest =>
      if decide (form_i = form_type) then
        accs <- getitem "accessionNumber" (accessionNumber recent) ;;
        accession_number <- index accs i ;;
        dates <- getitem "filingDate" (filingDate recent) ;;
        filing_date <- index dates i ;;
        primary_doc <- index (default [[]] (primaryDocument recent)) i ;;
        let filings' :=
          filings ++ [make_filing cik accession_number filing_date primary_doc] in
        if len filings' >=? count then ret filings'
        else filings_loop recent cik form_type count rest (S i) filings'
      else filings_loop recent cik form_type count rest (S i) filings
  end.

(** The body of the [try], after the status check. *)
Definition list_filings (data : submissions) (cik form_type : str) (count : Z)
  : result (list Filing.t) :=
  match data with
  | NoFilings | NoRecent => ret []
  | Recent recent =>
      match form recent, accessionNumber recent with
      | Some forms, Some _ => filings_loop recent cik form_type count forms 0 []
      | _, _ => ret []
      end
  end.

(** [get_recent_filings(ticker, cik, form_type, count)], on the reply to the
    GET of the submissions document of [cik]. *)
Definition get_recent_filings (reply : option (response submissions))
  (ticker cik form_type : str) (count : Z) : list Filing.t :=
  match reply with
  | None => []
  | Some r =>
      if negb (status_code r =? 200) then []
      else match json r with
           | None => []
           | Some data =>
               match list_filings data cik form_type count with
               | inr filings => filings
               | inl _ => []
               end
           end
  end.

(** ** PipelineOrchestrator: [process_companies] *)

Module Row.
(** One entry of [results]. *)
Record t : Type := {
  Company : str;
  CIK : str;
  Filing_Date : str;
  Accession_Number : str;
  Document_URL : str;
  Product_Keyword : str;
  Product_Name : str;
  Product_Context : str
}.
End Row.

(** What a run leaves behind: in order, the companies of the log lines
    [Processing company ... (CIK: ...)], one per call of
    [get_recent_filings], and how the call of [process_companies] ends: it
    returns [results], or an exception leaves it (the function has no
    [try]). *)
Record run : Type := {
  processed : list (str * str);
  outcome : result (list Row.t)
}.

Definition companies : list str :=
  [ py "AAPL"; py "MSFT"; py "GOOGL"; py "AMZN"; py "META" ].

Section Orchestrator.
(** The replies of the upstream service, by request. *)
Variable submissions_reply : str -> option (response submissions).
Variable document_reply : str -> option (response str).
(** [get_document_from_index], by index URL. *)
Variable get_document_from_index : str -> option str.

Variable max_companies max_filings : Z.

(** The body of [for filing in filings], giving the row to append if the
    filing is not skipped. *)
Definition process_filing (ticker cik : str) (filing : Filing.t)
  : result (option Row.t) :=
  let doc_url :=
    if nonempty (Filing.docUrl filing) then Some (Filing.docUrl filing)
    else get_document_from_index (Filing.indexUrl filing) in
  match doc_url with
  | None => ret None
  | Some doc_url =>
      if negb (nonempty doc_url) then ret None
      else
        let text := get_filing_text (document_reply doc_url) in
        if negb (nonempty text) then ret None
        else
          match contains_product_info text with
          | (false, _, _) => ret None
          | (true, context, keyword) =>
              product_name <- extract_product_name context keyword ;;
              ret (Some {| Row.Company := ticker;
                           Row.CIK := cik;
                           Row.Filing_Date := Filing.filingDate filing;
                           Row.Accession_Number := Filing.accessionNumber filing;
                           Row.Document_URL := doc_url;
                           Row.Product_Keyword := keyword;
                           Row.Product_Name := product_name;
                           Row.Product_Context := context |})
          end
  end.

(** The [for filing in filings] loop: [results] with the rows of the
    filings appended, unless the body raises. *)
Fixpoint process_filings (ticker cik : str) (filings : list Filing.t)
  (results : list Row.t) : result (list Row.t) :=
  match filings with
  | [] => ret results
  | filing :: rest =>
      row <- process_filing ticker cik filing ;;
      process_filings ticker cik rest
        (match row with
         | Some r => results ++ [r]
         | None => results
         end)
  end.

Definition submissions_url (cik : str) : str :=
  py "https://data.sec.gov/submissions/CIK" ++ cik ++ py ".json".

(** The [for ticker in companies] loop over the candidates still to
    visit; [logged] holds the companies processed so far. *)
Fixpoint companies_loop (tickers_dict : gmap str str) (todo : list str)
  (company_count : Z) (results : list Row.t) (logged : list (str * str))
  : run :=
  match todo with
  | [] => {| processed := logged; outcome := ret results |}
  | ticker :: rest =>
      if company_count >=? max_companies then
        {| processed := logged; outcome := ret results |}
      else
        match tickers_dict !! ticker with
        | None => companies_loop tickers_dict rest company_count results logged
        | Some cik =>
            let company_count := company_count + 1 in
            let logged := logged ++ [(ticker, cik)] in
            let filings :=
              get_recent_filings (submissions_reply (submissions_url cik))
                ticker cik (py "8-K") max_filings in
            if negb (nonempty filings) then
              companies_loop tickers_dict rest company_count results logged
            else
              match process_filings ticker cik filings results with
              | inl e => {| processed := logged; outcome := raise e |}
              | inr results =>
                  companies_loop tickers_dict rest company_count results logged
              end
        end
  end.

Definition process_companies_from (candidates : list str)
  (tickers_dict : gmap str str) : run :=
  if decide (tickers_dict = ∅) then {| processed := []; outcome := ret [] |}
  else companies_loop tickers_dict candidates 0 [] [].
End Orchestrator.

(** [process_companies], on the ticker map [get_company_tickers] returned. *)
Definition process_companies
  (submissions_reply : str -> option (response submissions))
  (document_reply : str -> option (response str))
  (get_document_from_index : str -> option str)
  (tickers_dict : gmap str str) : run :=
  process_companies_from submissions_reply document_reply
    get_document_from_index Config.MAX_COMPANIES Config.MAX_FILINGS_PER_COMPANY
    companies tickers_dict.

(** ** DocumentLocator: [get_document_from_index]

    The index page as the parser hands it over: the table with the summary
    [Document Format Files] if there is one, as the list of its rows, each
    row the list of its [td] cells. *)

Module Cell.
(** A cell: its text, and the first link inside it, if any, with its
    [href] attribute, if it has one. *)
Record t : Type := {
  text : str;
  a_href : option (option str)
}.
End Cell.

Module DocumentLocator.
(** [description.lower() == "8-k" or "form 8-k" in description.lower()] *)
Definition is_8k (description : str) : bool :=
  bool_decide (lower description = py "8-k")
  || py_in (py "form 8-k") (lower description).

(** The document URL made of an [href]. *)
Definition absolute (href : str) : str :=
  if startswith (py "/") href then py "https://www.sec.gov" ++ href
  else href.

(** The [for row in rows] loop. *)
Fixpoint rows_loop (rows : list (list Cell.t)) : option str :=
  match rows with
  | [] => None
  | cells :: rest =>
      if len cells >=? 3 then
        match cells !! 1%nat, cells !! 2%nat with
        | Some c1, Some c2 =>
            let description := strip (Cell.text c1) in
            if is_8k description then
              match Cell.a_href c2 with
              | Some (Some href) =>
                  if nonempty href then Some (absolute href)
                  else rows_loop rest
              | _ => rows_loop rest
              end
            else rows_loop rest
        | _, _ => None   (* an IndexError, caught; a row of three cells has both *)
        end
      else rows_loop rest
  end.

(** [get_document_from_index], on the reply to the GET of the index page;
    the body is the table found in the page, if the page has one. *)
Definition get_document_from_index
  (reply : option (response (option (list (list Cell.t))))) : option str :=
  match reply with
  | None => None
  | Some r =>
      if negb (status_code r =? 200) then None
      else match json r with
           | None => None
           | Some None => None
           | Some (Some rows) => rows_loop rows
           end
  end.

(** What one row gives: the document URL of its third cell, when the row
    has three cells, its second cell describes the form and the link of the
    third cell has an [href] that is not empty. *)
Definition row_document (cells : list Cell.t) : option str :=
  match cells with
  | _ :: c1 :: c2 :: _ =>
      if is_8k (strip (Cell.text c1)) then
        match Cell.a_href c2 with
        | Some (Some href) => if nonempty href then Some (absolute href) else None
        | _ => None
        end
      else None
  | _ => None
  end.

Definition cell (text : string) (href : option (option str)) : Cell.t :=
  {| Cell.text := py text; Cell.a_href := href |}.

(** A table whose first form row has a link without target. *)
Definition sample_table : list (list Cell.t) :=
  [ [ cell "Seq" None; cell "Description" None; cell "Document" None ];
    [ cell "1" None; cell " FORM 8-K " None; cell "a.htm" (Some None) ];
    [ cell "2" None; cell "8-K" None;
      cell "b.htm" (Some (Some (py "/Archives/edgar/data/320193/b.htm"))) ];
    [ cell "3" None; cell "Current report, form 8-k" None;
      cell "c.htm" (Some (Some (py "c.htm"))) ] ].
End DocumentLocator.

(** The characters of [s] that are not white space, in order. *)
Definition visible (s : str) : str :=
  List.filter (fun c => negb (is_space c)) s.

(** A page text with blank lines, indentation and columns. *)
Definition ragged_text : str :=
  py "  Item 8.01   Other Events  " ++ [chr 13; chr 10; chr 10; chr 9]
    ++ py "Apple  today " ++ [chr 10].

(** The words of [s]: its maximal runs of characters that are not white
    space, in order ([s.split()]). *)
Fixpoint words (s : str) : list str :=
  match s with
  | [] => []
  | c :: s' =>
      if is_space c then words s'
      else
        match s' with
        | [] => [[c]]
        | d :: _ =>
            if is_space d then [c] :: words s'
            else match words s' with
                 | w :: ws => (c :: w) :: ws
                 | [] => [[c]]
                 end
        end
  end.

(** Prepending a visible character to a text that starts with one. *)
Definition push (c : ascii) (ws : list str) : list str :=
  match ws with
  | w :: ws' => (c :: w) :: ws'
  | [] => [[c]]
  end.

(** A keyword of one word: not empty and without white space. *)
Definition one_word (k : str) : Prop :=
  k <> [] /\ Forall (fun c => is_space c = false) k.

(** The first word of [s]. *)
Definition first_word (s : str) : str :=
  match words s with
  | w :: _ => w
  | [] => []
  end.

(** The configured keywords of one word. *)
Definition plain_keywords : list str :=
  [ py "launch"; py "announce"; py "introduce"; py "unveil"; py "release";
    py "innovation"; py "technology" ].

(** ** The detector over all code points

    [contains_product_info] again, a character being any code point and
    [str.lower] any function on strings: the lower-case form of a text can
    be longer than the text. *)
Module Unicode.

Abbreviation ustr := (list Z).

Definition points (s : str) : ustr := map ord s.

Fixpoint startswith (k s : ustr) : bool :=
  match k, s with
  | [], _ => true
  | _ :: _, [] => false
  | a :: k', b :: s' => (a =? b) && startswith k' s'
  end.

Fixpoint py_in (k s : ustr) : bool :=
  startswith k s ||
  match s with
  | [] => false
  | _ :: s' => py_in k s'
  end.

Fixpoint find_from (k s : ustr) (i : Z) : Z :=
  if startswith k s then i
  else match s with
       | [] => -1
       | _ :: s' => find_from k s' (i + 1)
       end.

Definition find (s k : ustr) : Z := find_from k s 0.

Section Detector.
(** [str.lower] *)
Variable lower : ustr -> ustr.

Fixpoint scan_keywords (text text_lower : ustr) (keywords : list ustr)
  : bool * ustr * ustr :=
  match keywords with
  | [] => (false, [], [])
  | keyword :: rest =>
      if py_in keyword text_lower then
        let keyword_index := find text_lower keyword in
        (true, context_window text keyword_index, keyword)
      else scan_keywords text text_lower rest
  end.

Definition contains_product_info_with (keywords : list ustr) (text : ustr)
  : bool * ustr * ustr :=
  scan_keywords text (lower text) keywords.
End Detector.

(** [str.lower] by code point, on the code points below 256 and on U+0130,
    LATIN CAPITAL LETTER I WITH DOT ABOVE, which becomes the letter i and
    U+0307, COMBINING DOT ABOVE.  No other code point has a lower-case form
    of more than one code point; the letters above 255 are not in this
    table. *)
Definition lower_point (c : Z) : ustr :=
  if c =? 304 then [105; 775]
  else if c <? 256 then [ord (lower_char (chr c))]
  else [c].

Definition lower (s : ustr) : ustr := flat_map lower_point s.

Definition contains_product_info (text : ustr) : bool * ustr * ustr :=
  contains_product_info_with lower (map points Config.PRODUCT_KEYWORDS) text.

End Unicode.

(** ** Specification vocabulary *)

Definition sample_text : str :=
  py "Apple today announced the iPhone 17 with new features.".

(** A well-formed ticker payload: every entry's raw numeric id is a CIK, a
    number of at most ten decimal digits. *)
Definition is_cik (n : Z) : Prop := 0 <= n < 10 ^ 10.

Definition well_formed_tickers (items : list (str * company)) : Prop :=
  Forall (fun item => is_cik (cik_str (snd item))) items.

Definition well_formed_reply (reply : option (response (list (str * company))))
  : Prop :=
  match reply with
  | Some r =>
      match json r with
      | Some items => well_formed_tickers items
      | None => True
      end
  | None => True
  end.

Definition apple_reply : option (response (list (str * company))) :=
  Some {| status_code := 200;
          json := Some [ (py "0", {| ticker := py "AAPL"; cik_str := 320193 |});
                         (py "1", {| ticker := py "MSFT"; cik_str := 789019 |}) ] |}.

(** The positions of [forms], counted from [i], that hold [form_type]. *)
Fixpoint positions_from (form_type : str) (forms : list str) (i : nat)
  : list nat :=
  match forms with
  | [] => []
  | form_i :: rest =>
      if decide (form_i = form_type) then i :: positions_from form_type rest (S i)
      else positions_from form_type rest (S i)
  end.

(** The record the loop body builds at position [i], if it raises nothing. *)
Definition filing_at (recent : recent_filings) (cik : str) (i : nat)
  : result Filing.t :=
  accs <- getitem "accessionNumber" (accessionNumber recent) ;;
  accession_number <- index accs i ;;
  dates <- getitem "filingDate" (filingDate recent) ;;
  filing_date <- index dates i ;;
  primary_doc <- index (default [[]] (primaryDocument recent)) i ;;
  ret (make_filing cik accession_number filing_date primary_doc).

Definition ok_reply {A : Type} (body : A) : option (response A) :=
  Some {| status_code := 200; json := Some body |}.

(** Two filings of the wanted form type, the key ['primaryDocument']
    present or not. *)
Definition two_filings (primary : option (list str)) : submissions :=
  Recent {| form := Some [py "8-K"; py "8-K"];
            accessionNumber := Some [py "0000320193-25-000001";
                                     py "0000320193-25-000002"];
            filingDate := Some [py "2025-01-03"; py "2025-01-02"];
            primaryDocument := primary |}.

(** The candidates that are in the ticker map, in candidate order, each
    with its identifier. *)
Definition present_in (tickers_dict : gmap str str) (candidates : list str)
  : list (str * str) :=
  omap (fun t => match tickers_dict !! t with
                 | Some cik => Some (t, cik)
                 | None => None
                 end) candidates.

(** [s] holds two spaces in a row. *)
Fixpoint has_double_space (s : str) : bool :=
  match s with
  | [] => false
  | c :: s' =>
      match s' with
      | d :: _ => (eqc c space && eqc d space) || has_double_space s'
      | [] => false
      end
  end.

(** No white space at either end. *)
Definition trimmed (s : str) : Prop := lstrip s = s /\ lstrip (rev s) = rev s.

(** A chunk of cleaned text: not empty, on one line, trimmed, and with no
    two spaces in a row. *)
Definition clean_chunk (c : str) : Prop :=
  nonempty c = true /\
  Forall (fun x => is_linebreak x = false) c /\
  has_double_space c = false /\
  trimmed c.

(** The chunks [clean_text] joins. *)
Definition chunks_of (text : str) : list str :=
  List.filter nonempty (map strip (flat_map split2 (map strip (splitlines text)))).

(** A text in which a keyword configured later (technology) occurs before a
    keyword configured earlier (announce). *)
Definition priority_text : str := py "New technology: we Announce a release".

Definition fallback_context : str :=
  py "the company will announce this exciting update soon".

(** The keyword followed by a quoted blank. *)
Definition blank_quote_context : str :=
  py "we announce " ++ [dquote] ++ py " " ++ [dquote] ++ py " today".

(** A ticker map without Apple, and an upstream that answers nothing. *)
Definition two_tickers : gmap str str :=
  <[py "GOOGL" := py "0001652044"]> (<[py "MSFT" := py "0000789019"]> ∅).

Definition offline {A : Type} (url : str) : option A := None.

(** A keyword written with a capital letter, and a text that holds it. *)
Definition capital_keyword : str := py "Launch".
Definition capital_text : str := py "We Launch the Model 3 today".

(** Every character the expression can consume satisfies [P]. *)
Fixpoint consumes_only (ic : bool) (P : ascii -> bool) (r : regex) : Prop :=
  match r with
  | Eps => True
  | Lit c => forall d, lit_match ic c d = true -> P d = true
  | Cls neg p => forall d, cls_match ic neg p d = true -> P d = true
  | Cat r1 r2 => consumes_only ic P r1 /\ consumes_only ic P r2
  | Rep _ _ _ r' => consumes_only ic P r'
  end.

Definition not_quote (c : ascii) : bool := negb (is_quote c).
Definition alnum_or_space (c : ascii) : bool := is_alnum c || is_space c.

(** A context that does not hold the keyword it is read with. *)
Definition stray_context : str := py "New Model here".

(** A payload that lists the same ticker twice. *)
Definition twice_listed : list (str * company) :=
  [ (py "0", {| ticker := py "AAPL"; cik_str := 1 |});
    (py "1", {| ticker := py "MSFT"; cik_str := 789019 |});
    (py "2", {| ticker := py "AAPL"; cik_str := 320193 |}) ].

(** The number of records the loop collects before it stops. *)
Definition wanted (count : Z) : nat := Z.to_nat (Z.max 1 count).

(** The directory of a filing in the archive. *)
Definition archive_of (cik : str) (f : Filing.t) : str :=
  py "https://www.sec.gov/Archives/edgar/data/" ++ cik ++ py "/"
    ++ remove_dashes (Filing.accessionNumber f) ++ py "/".

(** An upstream that answers every request for a submissions document
    with the two filings, and every request for a document with a page
    whose text names a product. *)
Definition two_filings_reply (url : str) : option (response submissions) :=
  ok_reply (two_filings (Some [py "a.htm"; py "b.htm"])).

Definition sample_page (url : str) : option (response str) :=
  ok_reply sample_text.

(** A run against that upstream, and its first row. *)
Definition sample_run : run :=
  process_companies two_filings_reply sample_page offline two_tickers.

(** An upstream whose pages hold a keyword with no quoted phrase and no
    capital letter after it. *)
Definition plain_text : str := py "we will launch it next year".

Definition plain_page (url : str) : option (response str) :=
  ok_reply plain_text.

(** A text that starts with 120 times U+0130: the keyword stands at
    position 121, and at position 241 of the lower-cased text. *)
Definition dotted_text : Unicode.ustr :=
  repeat 304 120 ++ Unicode.points (py " launch ")
    ++ repeat (ord "z"%char) 50.

Definition sample_row : Row.t :=
  {| Row.Company := py "MSFT";
     Row.CIK := py "0000789019";
     Row.Filing_Date := py "2025-01-03";
     Row.Accession_Number := py "0000320193-25-000001";
     Row.Document_URL :=
       py "https://www.sec.gov/Archives/edgar/data/0000789019/000032019325000001/a.htm";
     Row.Product_Keyword := py "announce";
     Row.Product_Name := py "Phone";
     Row.Product_Context := sample_text |}.

(** An index page reader that always names the same document. *)
Definition fixed_document (index_url : str) : option str :=
  Some (py "https://www.sec.gov/other.htm").

(** * Properties *)

(** ** Substring search *)

Lemma eqc_true (a b : ascii) : eqc a b = true <-> a = b.
Proof. unfold eqc. apply Ascii.eqb_eq. Qed.

Lemma startswith_app (k s : str) :
  startswith k s = true <-> exists t, s = k ++ t.
Proof.
  revert s. induction k as [|a k IH]; intros s; simpl.
  - split; eauto.
  - destruct s as [|b s]; simpl.
    + split; [discriminate | intros [t Ht]; discriminate].
    + rewrite andb_true_iff, eqc_true, IH. split.
      * intros [-> [t ->]]. eauto.
      * intros [t Ht]. injection Ht as -> ->. eauto.
Qed.

Lemma startswith_length (k s : str) :
  startswith k s = true -> (length k <= length s)%nat.
Proof.
  intros [t ->]%startswith_app. rewrite length_app. lia.
Qed.

(** Where [find] lands when the keyword occurs. *)
Lemma find_from_in (k s : str) (i : Z) :
  py_in k s = true ->
  exists j : nat,
    find_from k s i = i + Z.of_nat j /\
    startswith k (drop j s) = true /\
    forall m : nat, (m < j)%nat -> startswith k (drop m s) = false.
Proof.
  revert i. induction s as [|c s IH]; intros i; simpl.
  - rewrite orb_false_r. intros H. exists 0%nat. rewrite H.
    split; [lia|]. split; [exact H|]. intros m Hm. lia.
  - destruct (startswith k (c :: s)) eqn:E; simpl.
    + intros _. exists 0%nat. split; [lia|]. split; [exact E|].
      intros m Hm. lia.
    + intros H. destruct (IH (i + 1) H) as (j & Hj & Hs & Hmin).
      exists (S j). split; [lia|]. split; [exact Hs|].
      intros [|m] Hm; simpl; [exact E | apply Hmin; lia].
Qed.

Lemma find_from_not_in (k s : str) (i : Z) :
  py_in k s = false -> find_from k s i = -1.
Proof.
  revert i. induction s as [|c s IH]; intros i; simpl.
  - rewrite orb_false_r. intros ->. reflexivity.
  - intros [-> H]%orb_false_iff. apply IH, H.
Qed.

(** ** The context window *)

Lemma scan_keywords_found (text text_lower : str) (keywords : list str)
  (context keyword : str) :
  scan_keywords text text_lower keywords = (true, context, keyword) ->
  keyword ∈ keywords /\ py_in keyword text_lower = true /\
  context = context_window text (find text_lower keyword).
Proof.
  induction keywords as [|k ks IH]; simpl; [discriminate|].
  destruct (py_in k text_lower) eqn:E.
  - intros [= <- <-]. split; [left|]. auto.
  - intros H. destruct (IH H) as (? & ? & ?). split; [by right|]. auto.
Qed.

Lemma scan_keywords_first (text text_lower : str) (pre post : list str)
  (keyword : str) :
  (forall k, k ∈ pre -> py_in k text_lower = false) ->
  py_in keyword text_lower = true ->
  scan_keywords text text_lower (pre ++ keyword :: post) =
    (true, context_window text (find text_lower keyword), keyword).
Proof.
  intros Hpre Hin. induction pre as [|k pre IH]; simpl.
  - rewrite Hin. reflexivity.
  - rewrite (Hpre k) by left. apply IH. intros k' Hk'. apply Hpre. by right.
Qed.

(** A slice is a contiguous part of the string, whatever the bounds. *)
Lemma slice_part {A : Type} (s : list A) (a b : Z) :
  exists pre post, s = pre ++ slice s a b ++ post.
Proof.
  unfold slice. eexists _, _.
  rewrite take_drop, take_drop. reflexivity.
Qed.

(** The window around an index that [find] returned for a match has at
    most 300 characters. *)
Lemma context_window_length {A : Type} (text : list A) (i : Z) :
  0 <= i -> len (context_window text i) <= 300.
Proof.
  intros Hi. unfold context_window, slice, slice_index, len.
  rewrite length_take, length_drop.
  destruct (Z.max 0 (i - 100) <? 0) eqn:Ea; [lia|].
  destruct (Z.min (Z.of_nat (length text)) (i + 200) <? 0) eqn:Eb; lia.
Qed.

Module UnicodeFacts.
Import Unicode.

Lemma points_find_from_in (k s : ustr) (i : Z) :
  py_in k s = true ->
  exists j : nat,
    find_from k s i = i + Z.of_nat j /\
    startswith k (drop j s) = true /\
    forall m : nat, (m < j)%nat -> startswith k (drop m s) = false.
Proof.
  revert i. induction s as [|c s IH]; intros i; simpl.
  - rewrite orb_false_r. intros H. exists 0%nat. rewrite H.
    split; [lia|]. split; [exact H|]. intros m Hm. lia.
  - destruct (startswith k (c :: s)) eqn:E; simpl.
    + intros _. exists 0%nat. split; [lia|]. split; [exact E|].
      intros m Hm. lia.
    + intros H. destruct (IH (i + 1) H) as (j & Hj & Hs & Hmin).
      exists (S j). split; [lia|]. split; [exact Hs|].
      intros [|m] Hm; simpl; [exact E | apply Hmin; lia].
Qed.

Lemma points_scan_keywords_found (text text_lower : ustr) (keywords : list ustr)
  (context keyword : ustr) :
  scan_keywords text text_lower keywords = (true, context, keyword) ->
  keyword ∈ keywords /\ py_in keyword text_lower = true /\
  context = context_window text (find text_lower keyword).
Proof.
  induction keywords as [|k ks IH]; simpl; [discriminate|].
  destruct (py_in k text_lower) eqn:E.
  - intros [= <- <-]. split; [left|]. auto.
  - intros H. destruct (IH H) as (? & ? & ?). split; [by right|]. auto.
Qed.

End UnicodeFacts.

(** On texts of code points below 256 this detector is the one above. *)
Lemma ord_chr (a : ascii) : chr (ord a) = a.
Proof. unfold chr, ord. rewrite N2Z.id. apply ascii_N_embedding. Qed.

Lemma ord_below (a : ascii) : 0 <= ord a < 256.
Proof.
  unfold ord. pose proof (N_ascii_bounded a) as H. lia.
Qed.

Lemma ord_eqb (a b : ascii) : (ord a =? ord b) = eqc a b.
Proof.
  destruct (eqc a b) eqn:E.
  - apply eqc_true in E as ->. apply Z.eqb_refl.
  - apply Z.eqb_neq. intros H. apply (f_equal chr) in H.
    rewrite !ord_chr in H. apply eqc_true in H. congruence.
Qed.

Lemma points_lower (s : str) :
  Unicode.lower (Unicode.points s) = Unicode.points (lower s).
Proof.
  unfold Unicode.lower, Unicode.points, lower.
  induction s as [|a s IH]; simpl; [reflexivity|].
  rewrite IH. unfold Unicode.lower_point. pose proof (ord_below a) as Ha.
  destruct (ord a =? 304) eqn:E1; [apply Z.eqb_eq in E1; lia|].
  destruct (ord a <? 256) eqn:E2; [|apply Z.ltb_ge in E2; lia].
  rewrite ord_chr. reflexivity.
Qed.

Lemma points_startswith (k s : str) :
  Unicode.startswith (Unicode.points k) (Unicode.points s) = startswith k s.
Proof.
  revert s. induction k as [|a k IH]; intros [|b s]; simpl; try reflexivity.
  rewrite ord_eqb, IH. reflexivity.
Qed.

Lemma points_py_in (k s : str) :
  Unicode.py_in (Unicode.points k) (Unicode.points s) = py_in k s.
Proof.
  induction s as [|b s IH].
  - pose proof (points_startswith k []) as H. simpl in H |- *.
    rewrite H. reflexivity.
  - pose proof (points_startswith k (b :: s)) as H.
    change (Unicode.points (b :: s)) with (ord b :: Unicode.points s) in *.
    simpl Unicode.py_in. simpl py_in. rewrite H, IH. reflexivity.
Qed.

Lemma points_find_from (k s : str) (i : Z) :
  Unicode.find_from (Unicode.points k) (Unicode.points s) i = find_from k s i.
Proof.
  revert i. induction s as [|b s IH]; intros i.
  - pose proof (points_startswith k []) as H. simpl in H |- *.
    rewrite H. reflexivity.
  - pose proof (points_startswith k (b :: s)) as H.
    change (Unicode.points (b :: s)) with (ord b :: Unicode.points s) in *.
    simpl Unicode.find_from. simpl find_from. rewrite H, IH. reflexivity.
Qed.

Lemma points_context_window (text : str) (i : Z) :
  context_window (Unicode.points text) i =
    Unicode.points (context_window text i).
Proof.
  unfold context_window, slice, len, Unicode.points. cbv zeta.
  rewrite length_map, skipn_map, firstn_map. reflexivity.
Qed.

Lemma detectors_agree (keywords : list str) (text : str) :
  Unicode.contains_product_info_with Unicode.lower
    (map Unicode.points keywords) (Unicode.points text) =
  let '(found, context, keyword) :=
    contains_product_info_with keywords text in
  (found, Unicode.points context, Unicode.points keyword).
Proof.
  unfold Unicode.contains_product_info_with, contains_product_info_with.
  rewrite points_lower.
  induction keywords as [|k ks IH]; simpl; [reflexivity|].
  rewrite points_py_in. destruct (py_in k (lower text)); [|exact IH].
  unfold Unicode.find, find. rewrite points_find_from, points_context_window.
  reflexivity.
Qed.


(** C5.  The index is found in [text.lower()] and used in [text].  In a text
    that starts with 120 times U+0130, whose lower-case form is two code
    points, the keyword launch stands at position 121 and is found at
    position 241 of the lower-cased text; the context returned is the slice
    from 141 to the end, 37 times the letter z, which is not the window
    around position 121 and does not hold the keyword. *)
Theorem context_window_misplaced :
  let keyword := Unicode.points (py "launch") in
  len dotted_text = 178 /\
  Unicode.find dotted_text keyword = 121 /\
  Unicode.find (Unicode.lower dotted_text) keyword = 241 /\
  Unicode.contains_product_info dotted_text =
    (true, repeat (ord "z"%char) 37, keyword) /\
  slice dotted_text (Z.max 0 (121 - 100)) (Z.min (len dotted_text) (121 + 200))
    = skipn 21 dotted_text /\
  skipn 21 dotted_text <> repeat (ord "z"%char) 37 /\
  Unicode.py_in keyword (repeat (ord "z"%char) 37) = false.
Proof.
  cbv zeta. repeat split; try (vm_compute; reflexivity).
  vm_compute. discriminate.
Qed.

(** C4.  List order decides, not the position in the text.  When a
    configured keyword [A] occurs in the lower-cased text, the keyword
    returned is configured at the place of [A] or before it, never after;
    and it is [A] itself, with the window of [A], when none of the keywords
    configured before [A] occurs, whatever keywords are configured after
    [A] and wherever in the text they occur, before [A]'s occurrence or
    after it. *)
Theorem keyword_priority (pre post : list str) (A : str) (text : str) :
  py_in A (lower text) = true ->
  exists (j : nat) (K : str),
    (j <= length pre)%nat /\
    (pre ++ A :: post) !! j = Some K /\
    contains_product_info_with (pre ++ A :: post) text =
      (true, context_window text (find (lower text) K), K) /\
    ((forall k, k ∈ pre -> py_in k (lower text) = false) -> j = length pre /\ K = A).
Proof.
  intros HA. unfold contains_product_info_with.
  induction pre as [|k pre IH]; simpl.
  - exists 0%nat, A. rewrite HA. auto.
  - destruct (py_in k (lower text)) eqn:Ek.
    + exists 0%nat, k. split; [lia|]. split; [reflexivity|].
      split; [reflexivity|]. intros Hpre.
      rewrite (Hpre k) in Ek by left. discriminate.
    + destruct IH as (j & K & Hj & Hlook & Hres & Hfirst).
      exists (S j), K. split; [lia|]. split; [exact Hlook|].
      split; [exact Hres|]. intros Hpre.
      destruct Hfirst as [-> ->]; [|auto].
      intros k' Hk'. apply Hpre. by right.
Qed.

Lemma keyword_priority_witness :
  (find (lower priority_text) (py "technology") <
     find (lower priority_text) (py "announce")) /\
  exists (j : nat) (K : str),
    (j <= 2)%nat /\
    Config.PRODUCT_KEYWORDS !! j = Some K /\
    contains_product_info priority_text =
      (true, context_window priority_text (find (lower priority_text) K), K) /\
    ((forall k, k ∈ [py "new product"; py "launch"] ->
        py_in k (lower priority_text) = false) -> j = 2%nat /\ K = py "announce").
Proof.
  split; [vm_compute; reflexivity|].
  apply (keyword_priority [py "new product"; py "launch"]
           [py "introduce"; py "unveil"; py "release"; py "innovation";
            py "technology"] (py "announce") priority_text).
  vm_compute. reflexivity.
Defined.

Example priority_sample :
  contains_product_info priority_text = (true, priority_text, py "announce").
Proof. vm_compute. reflexivity. Qed.

(** ** Identifiers *)

Lemma digit_char_ok (d : Z) : 0 <= d < 10 ->
  is_09 (digit_char d) = true /\ ord (digit_char d) - 48 = d.
Proof.
  intros H.
  assert (E : d = 0 \/ d = 1 \/ d = 2 \/ d = 3 \/ d = 4 \/ d = 5 \/ d = 6 \/
              d = 7 \/ d = 8 \/ d = 9) by lia.
  repeat (destruct E as [->|E]; [vm_compute; auto|]). subst. vm_compute. auto.
Qed.

Lemma digits_fuel_spec (fuel : nat) : forall (n : Z) (k : nat),
  0 <= n < 10 ^ Z.of_nat k ->
  Forall (fun c => is_09 c = true) (digits_fuel fuel n) /\
  (length (digits_fuel fuel n) <= Nat.max 1 k)%nat.
Proof.
  induction fuel as [|f IH]; intros n k Hn; simpl.
  - split; [constructor | lia].
  - destruct (n <? 10) eqn:E.
    + split; [|simpl; lia]. constructor; [|constructor].
      apply digit_char_ok. lia.
    + apply Z.ltb_ge in E. destruct k as [|k].
      { simpl in Hn. lia. }
      destruct k as [|k]. { simpl in Hn. lia. }
      assert (Hq : 0 <= n / 10 < 10 ^ Z.of_nat (S k)).
      { split; [apply Z.div_pos; lia|].
        apply Z.div_lt_upper_bound; [lia|].
        replace (Z.of_nat (S (S k))) with (Z.succ (Z.of_nat (S k))) in Hn by lia.
        rewrite Z.pow_succ_r in Hn by lia. lia. }
      destruct (IH (n / 10) (S k) Hq) as [Hd Hl]. split.
      * apply Forall_app. split; [exact Hd|]. constructor; [|constructor].
        apply digit_char_ok. apply Z.mod_pos_bound. lia.
      * rewrite length_app. simpl. lia.
Qed.

Lemma int_of_digits_snoc (s : str) (c : ascii) :
  int_of_digits (s ++ [c]) = 10 * int_of_digits s + (ord c - 48).
Proof. unfold int_of_digits. rewrite fold_left_app. reflexivity. Qed.

Lemma digits_fuel_value (fuel : nat) : forall n : Z,
  0 <= n < 2 ^ Z.of_nat (S fuel) ->
  int_of_digits (digits_fuel (S fuel) n) = n /\ digits_fuel (S fuel) n <> [].
Proof.
  induction fuel as [|f IH]; intros n Hn.
  - change (2 ^ Z.of_nat 1) with 2 in Hn. simpl.
    destruct (n <? 10) eqn:E; [|apply Z.ltb_ge in E; lia].
    split; [|discriminate]. unfold int_of_digits. simpl.
    destruct (digit_char_ok n) as [_ ->]; lia.
  - remember (S f) as f' eqn:Ef. simpl. destruct (n <? 10) eqn:E.
    + apply Z.ltb_lt in E. split; [|discriminate].
      unfold int_of_digits. simpl.
      destruct (digit_char_ok n) as [_ ->]; lia.
    + apply Z.ltb_ge in E.
      assert (Hq : 0 <= n / 10 < 2 ^ Z.of_nat f').
      { split; [apply Z.div_pos; lia|].
        apply Z.div_lt_upper_bound; [lia|].
        replace (Z.of_nat (S f')) with (Z.succ (Z.of_nat f')) in Hn by lia.
        rewrite Z.pow_succ_r in Hn by lia. lia. }
      subst f'. destruct (IH (n / 10) Hq) as [Hv _]. split.
      * rewrite int_of_digits_snoc, Hv.
        destruct (digit_char_ok (n mod 10)) as [_ ->].
        { apply Z.mod_pos_bound. lia. }
        pose proof (Z.div_mod n 10). lia.
      * intros Hnil. apply app_eq_nil in Hnil as [_ Hnil]. discriminate.
Qed.

Lemma digits_fuel_enough (n : Z) :
  0 <= n -> 0 <= n < 2 ^ Z.of_nat (S (Z.to_nat (Z.log2 n))).
Proof.
  intros Hn. split; [exact Hn|].
  destruct (Z.eq_dec n 0) as [->|Hne]; [reflexivity|].
  replace (Z.of_nat (S (Z.to_nat (Z.log2 n)))) with (Z.succ (Z.log2 n)).
  - apply Z.log2_spec. lia.
  - pose proof (Z.log2_nonneg n). lia.
Qed.

(** [str(n)] writes [n]: a non-empty string of digits whose value is [n]. *)
Lemma digits_spec (n : Z) : 0 <= n ->
  int_of_digits (digits n) = n /\ digits n <> [] /\
  Forall (fun c => is_09 c = true) (digits n).
Proof.
  intros Hn. unfold digits.
  destruct (digits_fuel_value _ n (digits_fuel_enough n Hn)) as [Hv Hne].
  split; [exact Hv|]. split; [exact Hne|].
  apply (digits_fuel_spec _ n (Z.to_nat n)).
  split; [lia|]. rewrite Z2Nat.id by lia.
  apply Z.pow_gt_lin_r; lia.
Qed.

Lemma int_of_digits_zeros (k : nat) (s : str) :
  int_of_digits (replicate k (chr 48) ++ s) = int_of_digits s.
Proof.
  unfold int_of_digits. rewrite fold_left_app. f_equal.
  induction k as [|k IH]; simpl; [reflexivity | exact IH].
Qed.

(** What [zfill(10)] makes of [str(n)] for a CIK [n]. *)
Lemma identifier_spec (n : Z) : is_cik n ->
  let id := zfill 10 (str_int n) in
  length id = 10%nat /\ Forall (fun c => is_09 c = true) id /\
  int_of_digits id = n /\
  exists k : nat, id = replicate k (chr 48) ++ str_int n.
Proof.
  intros [Hlo Hhi]. unfold str_int. destruct (n <? 0) eqn:E; [lia|].
  destruct (digits_spec n Hlo) as (Hv & Hne & Hd).
  assert (Hl : (length (digits n) <= 10)%nat).
  { apply (digits_fuel_spec _ n 10). split; [exact Hlo|exact Hhi]. }
  cbv zeta. unfold zfill, len. destruct (10 <=? _) eqn:E10.
  - apply Z.leb_le in E10. split; [lia|]. split; [exact Hd|].
    split; [exact Hv|]. exists 0%nat. reflexivity.
  - apply Z.leb_gt in E10.
    destruct (digits n) as [|c s] eqn:Ed; [congruence|].
    assert (Hc : is_sign c = false).
    { inversion Hd as [|? ? Hc ?]; subst. revert Hc.
      destruct c as [[] [] [] [] [] [] [] []]; vm_compute; congruence. }
    rewrite Hc. split.
    + rewrite length_app, length_replicate. simpl in *. lia.
    + split; [|split].
      * apply Forall_app. split; [|exact Hd].
        apply Forall_replicate. reflexivity.
      * rewrite int_of_digits_zeros. exact Hv.
      * eexists. reflexivity.
Qed.

Lemma tickers_loop_spec (items : list (str * company)) :
  well_formed_tickers items ->
  forall (d : gmap str str) (t id : str),
    tickers_loop items d !! t = Some id ->
    d !! t = Some id \/
    exists item, item ∈ items /\ ticker (snd item) = t /\
      id = zfill 10 (str_int (cik_str (snd item))).
Proof.
  induction 1 as [|[key c] items Hc Hwf IH]; intros d t id; simpl.
  - auto.
  - intros H. apply IH in H as [H|(item & Hin & Ht & Hid)].
    + destruct (decide (ticker c = t)) as [<-|Hne].
      * rewrite lookup_insert_eq in H. injection H as <-.
        right. exists (key, c). split; [left|]. auto.
      * rewrite lookup_insert_ne in H by exact Hne. auto.
    + right. exists item. split; [by right|]. auto.
Qed.

(** C6.  Every identifier in the mapping [get_company_tickers] builds from a
    well-formed payload (each raw numeric id a CIK, below [10^10]) is a
    string of exactly 10 characters, all of them decimal digits, and it is
    the raw id of a payload entry with that ticker, written in decimal with
    zeros put in front. *)
Theorem identifiers_ten_digits
  (reply : option (response (list (str * company)))) (t id : str) :
  well_formed_reply reply ->
  get_company_tickers reply !! t = Some id ->
  length id = 10%nat /\
  Forall (fun c => is_09 c = true) id /\
  exists items item (k : nat),
    reply = Some {| status_code := 200; json := Some items |} /\
    item ∈ items /\ ticker (snd item) = t /\
    int_of_digits id = cik_str (snd item) /\
    id = replicate k (chr 48) ++ str_int (cik_str (snd item)).
Proof.
  intros Hwf. unfold get_company_tickers.
  destruct reply as [[code body]|]; simpl; [|by rewrite lookup_empty].
  destruct (code =? 200) eqn:Ecode; simpl; [|by rewrite lookup_empty].
  apply Z.eqb_eq in Ecode. subst code.
  destruct body as [items|]; [|by rewrite lookup_empty].
  intros H. simpl in Hwf.
  apply (tickers_loop_spec items Hwf) in H as [H|(item & Hin & Ht & ->)].
  { by rewrite lookup_empty in H. }
  assert (Hc : is_cik (cik_str (snd item))).
  { unfold well_formed_tickers in Hwf. rewrite Forall_forall in Hwf.
    apply Hwf. exact Hin. }
  destruct (identifier_spec _ Hc) as (Hl & Hd & Hv & k & Hk).
  split; [exact Hl|]. split; [exact Hd|].
  exists items, item, k. auto.
Qed.

Lemma identifiers_ten_digits_witness :
  get_company_tickers apple_reply !! py "AAPL" = Some (py "0000320193") /\
  length (py "0000320193") = 10%nat /\
  Forall (fun c => is_09 c = true) (py "0000320193").
Proof.
  assert (H : get_company_tickers apple_reply !! py "AAPL"
              = Some (py "0000320193")) by (vm_compute; reflexivity).
  split; [exact H|].
  destruct (identifiers_ten_digits apple_reply (py "AAPL") (py "0000320193"))
    as (Hl & Hd & _).
  - repeat constructor; simpl; lia.
  - exact H.
  - split; [exact Hl | exact Hd].
Defined.

(** Outside that range [zfill] pads nothing: an id of eleven digits stays
    eleven characters long, and a negative one keeps its sign. *)
Example eleven_digits : length (zfill 10 (str_int (10 ^ 10))) = 11%nat.
Proof. vm_compute. reflexivity. Qed.

Example negative_id : zfill 10 (str_int (-5)) = py "-000000005".
Proof. vm_compute. reflexivity. Qed.

(** ** Filing lists *)

Lemma filings_loop_step (recent : recent_filings) (cik form_type : str)
  (count : Z) (form_i : str) (rest : list str) (i : nat)
  (filings : list Filing.t) :
  filings_loop recent cik form_type count (form_i :: rest) i filings =
  if decide (form_i = form_type) then
    f <- filing_at recent cik i ;;
    if len (filings ++ [f]) >=? count then ret (filings ++ [f])
    else filings_loop recent cik form_type count rest (S i) (filings ++ [f])
  else filings_loop recent cik form_type count rest (S i) filings.
Proof.
  simpl. destruct (decide (form_i = form_type)); [|reflexivity].
  unfold filing_at.
  destruct (getitem "accessionNumber" (accessionNumber recent)) as [?|accs];
    [reflexivity|]; simpl.
  destruct (index accs i); [reflexivity|]; simpl.
  destruct (getitem "filingDate" (filingDate recent)) as [?|dates];
    [reflexivity|]; simpl.
  destruct (index dates i); [reflexivity|]; simpl.
  destruct (index _ i); reflexivity.
Qed.

(** The loop returns the records of the first matching positions, in the
    order of the array: as many of them as the count still allows, and one
    when the count allows none. *)
Lemma filings_loop_window (recent : recent_filings) (cik form_type : str)
  (count : Z) (forms : list str) : forall (i : nat) (filings out : list Filing.t),
  filings = [] \/ len filings < count ->
  filings_loop recent cik form_type count forms i filings = inr out ->
  exists recs,
    out = filings ++ recs /\
    Forall2 (fun p f => filing_at recent cik p = inr f)
      (take (Z.to_nat (Z.max 1 (count - len filings)))
         (positions_from form_type forms i)) recs.
Proof.
  induction forms as [|form_i rest IH]; intros i filings out Hinv.
  - simpl. intros [= <-]. exists []. rewrite app_nil_r, take_nil.
    split; [reflexivity | constructor].
  - rewrite filings_loop_step. simpl positions_from.
    destruct (decide (form_i = form_type)) as [_|_]; [|apply IH; exact Hinv].
    destruct (filing_at recent cik i) as [e|f] eqn:Ef; simpl; [discriminate|].
    assert (Hlen : len (filings ++ [f]) = len filings + 1).
    { unfold len. rewrite length_app. simpl. lia. }
    assert (Hpos : 0 <= len filings) by (unfold len; lia).
    destruct (len (filings ++ [f]) >=? count) eqn:E.
    + intros [= <-]. exists [f]. split; [reflexivity|].
      assert (Hone : Z.to_nat (Z.max 1 (count - len filings)) = 1%nat) by lia.
      rewrite Hone. simpl. rewrite take_0. repeat constructor. exact Ef.
    + intros H. apply IH in H as (recs & -> & Hrecs); [|right; lia].
      exists (f :: recs). split; [by rewrite <- app_assoc|].
      assert (Hn : Z.to_nat (Z.max 1 (count - len filings)) =
                   S (Z.to_nat (Z.max 1 (count - len (filings ++ [f]))))) by lia.
      rewrite Hn. simpl. constructor; assumption.
Qed.

Lemma positions_from_spec (form_type : str) (forms : list str) :
  forall (i p : nat), p ∈ positions_from form_type forms i ->
    (i <= p)%nat /\ forms !! (p - i)%nat = Some form_type.
Proof.
  induction forms as [|form_i rest IH]; intros i p; simpl.
  - intros H. by apply not_elem_of_nil in H.
  - destruct (decide (form_i = form_type)) as [->|_].
    + intros [->|H]%elem_of_cons.
      * split; [lia|]. by rewrite Nat.sub_diag.
      * apply IH in H as [Hle Hp]. split; [lia|].
        replace (p - i)%nat with (S (p - S i)) by lia. exact Hp.
    + intros H. apply IH in H as [Hle Hp]. split; [lia|].
      replace (p - i)%nat with (S (p - S i)) by lia. exact Hp.
Qed.

Lemma positions_from_sorted (form_type : str) (forms : list str) :
  forall i : nat, StronglySorted lt (positions_from form_type forms i).
Proof.
  induction forms as [|form_i rest IH]; intros i; simpl; [constructor|].
  destruct (decide (form_i = form_type)); [|apply IH].
  constructor; [apply IH|]. apply Forall_forall. intros p Hp.
  apply positions_from_spec in Hp. lia.
Qed.

(** What [get_recent_filings] returns when it returns anything: the records
    built at the first [max(1, count)] positions of the form-type array that
    hold exactly [form_type], in the order of the array. *)
Lemma recent_filings_window (reply : option (response submissions))
  (ticker cik form_type : str) (count : Z) (f0 : Filing.t) (fs : list Filing.t) :
  get_recent_filings reply ticker cik form_type count = f0 :: fs ->
  exists recent forms,
    reply = ok_reply (Recent recent) /\ form recent = Some forms /\
    Forall2 (fun p f => filing_at recent cik p = inr f)
      (take (Z.to_nat (Z.max 1 count)) (positions_from form_type forms 0))
      (f0 :: fs).
Proof.
  unfold get_recent_filings.
  destruct reply as [[code body]|]; simpl; [|discriminate].
  destruct (code =? 200) eqn:Ecode; simpl; [|discriminate].
  apply Z.eqb_eq in Ecode. subst code.
  destruct body as [[| |recent]|]; simpl; try discriminate.
  destruct (form recent) as [forms|] eqn:Ef; [|discriminate].
  destruct (accessionNumber recent) as [accs|] eqn:Ea; [|discriminate].
  destruct (filings_loop _ _ _ _ _ _ _) as [e|out] eqn:Eloop; [discriminate|].
  intros ->. apply filings_loop_window in Eloop as (recs & -> & H); [|by left].
  exists recent, forms. split; [reflexivity|]. split; [exact Ef|].
  rewrite Z.sub_0_r in H. exact H.
Qed.

(** So a count of at least one is never exceeded. *)
Lemma recent_filings_at_most (reply : option (response submissions))
  (ticker cik form_type : str) (count : Z) :
  1 <= count ->
  len (get_recent_filings reply ticker cik form_type count) <= count.
Proof.
  intros Hcount.
  destruct (get_recent_filings reply ticker cik form_type count)
    as [|f0 fs] eqn:E.
  - unfold len. simpl. lia.
  - apply recent_filings_window in E as (recent & forms & _ & _ & H).
    apply Forall2_length in H. unfold len. rewrite <- H, length_take. lia.
Qed.

(** C7.  With a count of zero the check [len(filings) >= count] comes only
    after the first record is appended: one record is returned, more than
    the count allows. *)
Theorem recent_filings_count_zero :
  exists f : Filing.t,
    get_recent_filings (ok_reply (two_filings None))
      (py "AAPL") (py "0000320193") (py "8-K") 0 = [f].
Proof. eexists. vm_compute. reflexivity. Qed.

(** C10, as stated, fails: with ['primaryDocument'] absent, a match at
    index 0 and a count of 1, the loop stops before it reaches the match at
    index 1, and the record of index 0 is returned, with an empty document
    URL. *)
Lemma missing_primary_document_counterexample :
  exists f : Filing.t,
    get_recent_filings (ok_reply (two_filings None))
      (py "AAPL") (py "0000320193") (py "8-K") 1 = [f] /\
    Filing.docUrl f = [].
Proof. eexists. split; vm_compute; reflexivity. Qed.

Lemma index_default_raises (i : nat) :
  (0 < i)%nat -> index (default [[]] (@None (list str))) i = raise IndexError.
Proof. destruct i as [|i]; [lia|]. intros _. reflexivity. Qed.

Lemma filing_at_no_primary (recent : recent_filings) (cik : str) (i : nat) :
  primaryDocument recent = None -> (0 < i)%nat ->
  exists e, filing_at recent cik i = inl e /\
    (forall accs dates, accessionNumber recent = Some accs ->
       filingDate recent = Some dates ->
       (i < length accs)%nat -> (i < length dates)%nat -> e = IndexError).
Proof.
  intros Hp Hi. unfold filing_at. rewrite Hp, index_default_raises by exact Hi.
  destruct (accessionNumber recent) as [accs|]; simpl.
  2:{ eexists. split; [reflexivity|]. intros ? ? [=]. }
  unfold index at 1. destruct (accs !! i) as [acc|] eqn:Ea; simpl.
  2:{ eexists. split; [reflexivity|]. reflexivity. }
  destruct (filingDate recent) as [dates|]; simpl.
  2:{ eexists. split; [reflexivity|]. intros ? ? _ [=]. }
  unfold index at 1. destruct (dates !! i) as [d|] eqn:Ed; simpl.
  2:{ eexists. split; [reflexivity|]. reflexivity. }
  eexists. split; reflexivity.
Qed.

Lemma filings_loop_raises (recent : recent_filings) (cik form_type : str)
  (count : Z) (forms : list str) : forall (i : nat) (filings : list Filing.t),
  primaryDocument recent = None -> (0 < i)%nat -> form_type ∈ forms ->
  exists e, filings_loop recent cik form_type count forms i filings = inl e /\
    (forall accs dates, accessionNumber recent = Some accs ->
       filingDate recent = Some dates ->
       (i + length forms <= length accs)%nat ->
       (i + length forms <= length dates)%nat -> e = IndexError).
Proof.
  induction forms as [|form_i rest IH]; intros i filings Hp Hi Hin.
  - by apply not_elem_of_nil in Hin.
  - rewrite filings_loop_step.
    destruct (decide (form_i = form_type)) as [_|Hne].
    + destruct (filing_at_no_primary recent cik i Hp Hi) as (e & -> & He).
      exists e. split; [reflexivity|].
      intros accs dates Ha Hd Hla Hld. simpl in Hla, Hld.
      apply (He accs dates Ha Hd); lia.
    + apply elem_of_cons in Hin as [->|Hin]; [congruence|].
      destruct (IH (S i) filings Hp ltac:(lia) Hin) as (e & -> & He).
      exists e. split; [reflexivity|].
      intros accs dates Ha Hd Hla Hld. simpl in Hla, Hld.
      apply (He accs dates Ha Hd); lia.
Qed.

Lemma filing_at_complete (recent : recent_filings) (cik : str)
  (accs dates : list str) :
  accessionNumber recent = Some accs -> filingDate recent = Some dates ->
  primaryDocument recent = None ->
  (0 < length accs)%nat -> (0 < length dates)%nat ->
  exists f, filing_at recent cik 0 = inr f.
Proof.
  intros Ha Hd Hp Hla Hld. unfold filing_at. rewrite Ha, Hd, Hp.
  destruct accs as [|a accs]; [simpl in Hla; lia|].
  destruct dates as [|d dates]; [simpl in Hld; lia|].
  eexists. reflexivity.
Qed.

(** C10, amended.  With the keys ['form'] and ['accessionNumber'] present
    and ['primaryDocument'] absent, if [form_type] stands at an index above
    0 and the loop gets past index 0 (the form at index 0 is another one, or
    the count is at least 2), the loop body raises, and
    [get_recent_filings] returns the empty list, whatever it had collected.
    When the accession-number and filing-date arrays are as long as the
    form array, what is raised is the [IndexError] of indexing the
    one-element default list. *)
Theorem missing_primary_document (recent : recent_filings)
  (forms accs : list str) (ticker cik form_type : str) (count : Z) (i : nat) :
  form recent = Some forms ->
  accessionNumber recent = Some accs ->
  primaryDocument recent = None ->
  (0 < i)%nat -> forms !! i = Some form_type ->
  forms !! 0%nat <> Some form_type \/ 2 <= count ->
  (exists e, list_filings (Recent recent) cik form_type count = inl e /\
     (forall dates, filingDate recent = Some dates ->
        (length forms <= length accs)%nat ->
        (length forms <= length dates)%nat -> e = IndexError)) /\
  get_recent_filings (ok_reply (Recent recent)) ticker cik form_type count = [].
Proof.
  intros Hf Ha Hp Hi Hm Hpast.
  assert (H : exists e, list_filings (Recent recent) cik form_type count = inl e /\
     (forall dates, filingDate recent = Some dates ->
        (length forms <= length accs)%nat ->
        (length forms <= length dates)%nat -> e = IndexError)).
  { unfold list_filings. rewrite Hf, Ha.
    destruct forms as [|form_0 rest]; [discriminate|].
    destruct i as [|i]; [lia|]. simpl in Hm.
    assert (Hin : form_type ∈ rest) by (eapply list_elem_of_lookup_2; exact Hm).
    rewrite filings_loop_step.
    destruct (decide (form_0 = form_type)) as [->|Hne].
    - destruct Hpast as [Hne|Hcount]; [by destruct Hne|].
      destruct (filing_at recent cik 0) as [e|f] eqn:E0; simpl.
      + exists e. split; [reflexivity|]. intros dates Hd Hla Hld.
        simpl in Hla, Hld.
        destruct (filing_at_complete recent cik accs dates Ha Hd Hp)
          as [f Hf0]; [lia | lia |]. congruence.
      + destruct (len [f] >=? count) eqn:E.
        * assert (len [f] = 1) by reflexivity. lia.
        * destruct (filings_loop_raises recent cik form_type count rest 1 [f]
                      Hp ltac:(lia) Hin) as (e & -> & He).
          exists e. split; [reflexivity|]. intros dates Hd Hla Hld.
          simpl in Hla, Hld. apply (He accs dates Ha Hd); lia.
    - destruct (filings_loop_raises recent cik form_type count rest 1 []
                  Hp ltac:(lia) Hin) as (e & -> & He).
      exists e. split; [reflexivity|]. intros dates Hd Hla Hld.
      simpl in Hla, Hld. apply (He accs dates Ha Hd); lia. }
  split; [exact H|]. destruct H as (e & He & _).
  unfold get_recent_filings, ok_reply.
  cbn [status_code json Z.eqb Pos.eqb negb]. rewrite He. reflexivity.
Qed.

Lemma missing_primary_document_witness :
  get_recent_filings (ok_reply (two_filings None))
    (py "AAPL") (py "0000320193") (py "8-K") 5 = [].
Proof.
  apply (missing_primary_document
           {| form := Some [py "8-K"; py "8-K"];
              accessionNumber := Some [py "0000320193-25-000001";
                                       py "0000320193-25-000002"];
              filingDate := Some [py "2025-01-03"; py "2025-01-02"];
              primaryDocument := None |}
           [py "8-K"; py "8-K"]
           [py "0000320193-25-000001"; py "0000320193-25-000002"]
           (py "AAPL") (py "0000320193") (py "8-K") 5 1%nat);
    try reflexivity; [lia | right; lia].
Defined.

(** ** The company loop *)

Section OrchestratorFacts.
Variable submissions_reply : str -> option (response submissions).
Variable document_reply : str -> option (response str).
Variable get_document_from_index : str -> option str.
Variable max_companies max_filings : Z.
Variable tickers_dict : gmap str str.


Lemma companies_loop_cons (t : str) (rest : list str) (company_count : Z)
  (results : list Row.t) (logged : list (str * str)) :
  companies_loop submissions_reply document_reply get_document_from_index
    max_companies max_filings tickers_dict (t :: rest) company_count results
    logged =
  if company_count >=? max_companies then
    {| processed := logged; outcome := ret results |}
  else
    match tickers_dict !! t with
    | None =>
        companies_loop submissions_reply document_reply
          get_document_from_index max_companies max_filings tickers_dict rest
          company_count results logged
    | Some cik =>
        let filings :=
          get_recent_filings (submissions_reply (submissions_url cik))
            t cik (py "8-K") max_filings in
        if negb (nonempty filings) then
          companies_loop submissions_reply document_reply
            get_document_from_index max_companies max_filings tickers_dict
            rest (company_count + 1) results (logged ++ [(t, cik)])
        else
          match process_filings document_reply get_document_from_index
                  t cik filings results with
          | inl e => {| processed := logged ++ [(t, cik)]; outcome := raise e |}
          | inr results' =>
              companies_loop submissions_reply document_reply
                get_document_from_index max_companies max_filings
                tickers_dict rest (company_count + 1) results'
                (logged ++ [(t, cik)])
          end
    end.
Proof. reflexivity. Qed.

(** The loop logs candidates present in the map, in candidate order, and
    no more of them than the limit leaves room for. *)
Lemma companies_loop_processed (todo : list str) :
  forall (company_count : Z) (results : list Row.t)
    (logged : list (str * str)),
    exists n : nat,
      (n <= Z.to_nat (max_companies - company_count))%nat /\
      processed (companies_loop submissions_reply document_reply
                   get_document_from_index max_companies max_filings
                   tickers_dict todo company_count results logged) =
      logged ++ take n (present_in tickers_dict todo).
Proof.
  induction todo as [|t rest IH]; intros company_count results logged.
  - exists 0%nat. simpl. rewrite app_nil_r. split; [lia | reflexivity].
  - rewrite companies_loop_cons.
    destruct (company_count >=? max_companies) eqn:E.
    + exists 0%nat. simpl. rewrite app_nil_r. split; [lia | reflexivity].
    + assert (Hlt : company_count < max_companies).
      { destruct (Z.geb_spec company_count max_companies); [discriminate | lia]. }
      unfold present_in. simpl.
      destruct (tickers_dict !! t) as [cik|] eqn:Et; [|apply IH].
      cbv zeta.
      assert (Hstep : forall results',
        exists n : nat,
          (n <= Z.to_nat (max_companies - company_count))%nat /\
          processed (companies_loop submissions_reply document_reply
                       get_document_from_index max_companies max_filings
                       tickers_dict rest (company_count + 1) results'
                       (logged ++ [(t, cik)])) =
          logged ++ take n ((t, cik) :: present_in tickers_dict rest)).
      { intros results'.
        destruct (IH (company_count + 1) results' (logged ++ [(t, cik)]))
          as (n & Hn & Hp).
        exists (S n). split; [lia|]. rewrite Hp. simpl.
        rewrite <- app_assoc. reflexivity. }
      destruct (negb (nonempty _)); [apply Hstep|].
      destruct (process_filings _ _ _ _ _ _) as [e|results']; [|apply Hstep].
      exists 1%nat. split; [lia|]. simpl. rewrite take_0. reflexivity.
Qed.

End OrchestratorFacts.

(** C9.  A run in which the ticker map holds MSFT and GOOGL, and the text of
    every filing holds a keyword with no quoted phrase and no capital letter
    after it.  The first two candidates present in the map are MSFT and
    GOOGL; the run processes MSFT only: the name extractor raises on its
    first filing, [process_companies] has no handler, and the run ends
    there with the exception. *)
Theorem run_cut_short :
  let r := process_companies two_filings_reply plain_page offline two_tickers in
  take (Z.to_nat Config.MAX_COMPANIES) (present_in two_tickers companies) =
    [ (py "MSFT", py "0000789019"); (py "GOOGL", py "0001652044") ] /\
  processed r = [ (py "MSFT", py "0000789019") ] /\
  outcome r = raise (KeyError (py "0,4")).
Proof. cbv zeta. repeat split; vm_compute; reflexivity. Qed.

(** A candidate that is not in the map is passed over and the run goes on;
    a limit of one stops the run after the first company found. *)
Example absent_companies_skipped :
  process_companies offline offline offline two_tickers =
    {| processed := [ (py "MSFT", py "0000789019");
                      (py "GOOGL", py "0001652044") ];
       outcome := ret [] |}.
Proof. vm_compute. reflexivity. Qed.

Example limit_of_one :
  process_companies_from offline offline offline 1 5 companies two_tickers =
    {| processed := [ (py "MSFT", py "0000789019") ]; outcome := ret [] |}.
Proof. vm_compute. reflexivity. Qed.

(** ** Text cleaning *)

Lemma lstrip_suffix (s : str) : exists sp, s = sp ++ lstrip s.
Proof.
  induction s as [|c s [sp IH]]; simpl.
  - by exists [].
  - destruct (is_space c).
    + exists (c :: sp). simpl. by rewrite <- IH.
    + by exists [].
Qed.

Lemma rstrip_prefix (s : str) : exists sp, s = rstrip s ++ sp.
Proof.
  unfold rstrip. destruct (lstrip_suffix (rev s)) as [sp H].
  exists (rev sp). rewrite <- rev_app_distr, <- H, rev_involutive. reflexivity.
Qed.

Lemma lstrip_idem (s : str) : lstrip (lstrip s) = lstrip s.
Proof.
  induction s as [|c s IH]; simpl; [reflexivity|].
  destruct (is_space c) eqn:E; [exact IH|]. simpl. by rewrite E.
Qed.

Lemma lstrip_fixed (s : str) :
  lstrip s = s <-> s = [] \/ exists c t, s = c :: t /\ is_space c = false.
Proof.
  split.
  - destruct s as [|c t]; [by left|]. simpl.
    destruct (is_space c) eqn:E; [|right; eauto].
    intros H. destruct (lstrip_suffix t) as [sp Hsp].
    apply (f_equal (@length ascii)) in H, Hsp.
    rewrite length_app in Hsp. simpl in H. lia.
  - intros [->|(c & t & -> & E)]; simpl; [reflexivity | by rewrite E].
Qed.

Lemma strip_trimmed (s : str) : trimmed (strip s).
Proof.
  unfold trimmed, strip, rstrip. rewrite rev_involutive, lstrip_idem.
  split; [|reflexivity].
  apply lstrip_fixed.
  destruct (rstrip_prefix (lstrip s)) as [sp H]. unfold rstrip in H.
  destruct (rev (lstrip (rev (lstrip s)))) as [|c t] eqn:E; [by left|].
  right. exists c, t. split; [reflexivity|].
  assert (Hl : lstrip (lstrip s) = lstrip s) by apply lstrip_idem.
  apply lstrip_fixed in Hl as [Hl|(c' & t' & Hl & Hc)].
  - rewrite Hl in H. discriminate.
  - rewrite Hl in H. simpl in H. injection H as <- _. exact Hc.
Qed.

Lemma trimmed_strip (s : str) : trimmed s -> strip s = s.
Proof.
  intros [H1 H2]. unfold strip, rstrip.
  rewrite H1, H2. apply rev_involutive.
Qed.

Section Sublists.
Variable P : ascii -> Prop.

Lemma Forall_lstrip (s : str) : Forall P s -> Forall P (lstrip s).
Proof.
  destruct (lstrip_suffix s) as [sp H]. intros Hs. rewrite H in Hs.
  by apply Forall_app in Hs as [_ ?].
Qed.

Lemma Forall_rstrip (s : str) : Forall P s -> Forall P (rstrip s).
Proof.
  destruct (rstrip_prefix s) as [sp H]. intros Hs. rewrite H in Hs.
  by apply Forall_app in Hs as [? _].
Qed.

Lemma Forall_strip (s : str) : Forall P s -> Forall P (strip s).
Proof. intros H. by apply Forall_rstrip, Forall_lstrip. Qed.
End Sublists.

Lemma has_double_space_app (a b : str) :
  has_double_space (a ++ b) = false ->
  has_double_space a = false /\ has_double_space b = false.
Proof.
  induction a as [|c a IH].
  - simpl. auto.
  - destruct a as [|d a].
    + simpl. destruct b as [|d b]; [auto|].
      intros [_ H]%orb_false_iff. auto.
    + change (has_double_space ((c :: d :: a) ++ b))
        with ((eqc c space && eqc d space) || has_double_space ((d :: a) ++ b)).
      change (has_double_space (c :: d :: a))
        with ((eqc c space && eqc d space) || has_double_space (d :: a)).
      intros [-> H]%orb_false_iff. apply IH in H as [-> ->]. auto.
Qed.

Lemma has_double_space_strip (s : str) :
  has_double_space s = false -> has_double_space (strip s) = false.
Proof.
  intros H. unfold strip.
  destruct (lstrip_suffix s) as [sp Hsp]. rewrite Hsp in H.
  apply has_double_space_app in H as [_ H].
  destruct (rstrip_prefix (lstrip s)) as [sp' Hsp']. rewrite Hsp' in H.
  by apply has_double_space_app in H as [H _].
Qed.

(** Induction two characters at a time, as [split2] and [splitlines]
    recurse. *)
Lemma str_ind2 (Q : str -> Prop) :
  Q [] -> (forall c, Q [c]) ->
  (forall c d s, Q s -> Q (d :: s) -> Q (c :: d :: s)) ->
  forall s, Q s.
Proof.
  intros H0 H1 H2 s.
  assert (H : Q s /\ forall c, Q (c :: s)); [|apply H].
  induction s as [|d s [IHs IHc]]; split; auto.
Qed.

Lemma split2_cons2 (c d : ascii) (s : str) :
  split2 (c :: d :: s) =
  if eqc c space && eqc d space then [] :: split2 s
  else match split2 (d :: s) with
       | [] => [[c]]
       | f :: fs => (c :: f) :: fs
       end.
Proof. reflexivity. Qed.

(** The fragments of [split2] hold no two spaces in a row, and the first
    fragment is empty or starts where the string starts. *)
Lemma split2_fragments (s : str) :
  exists f fs, split2 s = f :: fs /\
    (f = [] \/ exists c f', head s = Some c /\ f = c :: f') /\
    Forall (fun x => has_double_space x = false) (f :: fs).
Proof.
  induction s as [| c | c d s IHs IHd] using str_ind2.
  - exists [], []. split; [reflexivity|]. split; [by left|]. by repeat constructor.
  - exists [c], []. split; [reflexivity|]. split; [right; by eauto|].
    by repeat constructor.
  - rewrite split2_cons2. destruct (eqc c space && eqc d space) eqn:E.
    + destruct IHs as (f & fs & -> & _ & HF).
      exists [], (f :: fs). split; [reflexivity|]. split; [by left|].
      constructor; [reflexivity | exact HF].
    + destruct IHd as (f & fs & -> & Hhead & HF).
      exists (c :: f), fs. split; [reflexivity|]. split; [right; by eauto|].
      inversion HF as [|? ? Hf Hfs]; subst. constructor; [|exact Hfs].
      destruct Hhead as [->|(d' & f' & [= <-] & ->)]; [reflexivity|].
      change (has_double_space (c :: d :: f'))
        with ((eqc c space && eqc d space) || has_double_space (d :: f')).
      by rewrite E, Hf.
Qed.

Lemma split2_Forall (P : ascii -> Prop) (s : str) :
  Forall P s -> Forall (Forall P) (split2 s).
Proof.
  induction s as [| c | c d s IHs IHd] using str_ind2; intros H.
  - by repeat constructor.
  - simpl. constructor; [exact H | constructor].
  - rewrite split2_cons2.
    inversion H as [|? ? Hc Hds]; subst. inversion Hds as [|? ? Hd Hs]; subst.
    destruct (eqc c space && eqc d space).
    + constructor; [constructor | by apply IHs].
    + specialize (IHd Hds). destruct (split2 (d :: s)) as [|f fs].
      * constructor; [|constructor]. constructor; [exact Hc | constructor].
      * inversion IHd as [|? ? Hf Hfs]; subst.
        constructor; [|exact Hfs]. constructor; assumption.
Qed.

Lemma split2_single (s : str) :
  has_double_space s = false -> split2 s = [s].
Proof.
  induction s as [| c | c d s IHs IHd] using str_ind2; intros H.
  - reflexivity.
  - reflexivity.
  - change (has_double_space (c :: d :: s))
      with ((eqc c space && eqc d space) || has_double_space (d :: s)) in H.
    apply orb_false_iff in H as [E H].
    rewrite split2_cons2, E, (IHd H). reflexivity.
Qed.

Lemma splitlines_cons2 (c d : ascii) (s : str) :
  splitlines (c :: d :: s) =
  if is_linebreak c then
    [] :: (if eqc c (chr 13) && eqc d (chr 10) then splitlines s
           else splitlines (d :: s))
  else match splitlines (d :: s) with
       | [] => [[c]]
       | l :: ls => (c :: l) :: ls
       end.
Proof. reflexivity. Qed.

(** No line of [splitlines] holds a line boundary. *)
Lemma splitlines_one_line (s : str) :
  Forall (Forall (fun x => is_linebreak x = false)) (splitlines s).
Proof.
  induction s as [| c | c d s IHs IHd] using str_ind2.
  - constructor.
  - simpl. destruct (is_linebreak c) eqn:E.
    + by repeat constructor.
    + constructor; [|constructor]. constructor; [exact E | constructor].
  - rewrite splitlines_cons2. destruct (is_linebreak c) eqn:E.
    + constructor; [constructor|]. by destruct (eqc c (chr 13) && eqc d (chr 10)).
    + destruct (splitlines (d :: s)) as [|l ls].
      * constructor; [|constructor]. constructor; [exact E | constructor].
      * inversion IHd as [|? ? Hl Hls]; subst.
        constructor; [|exact Hls]. constructor; assumption.
Qed.

Lemma splitlines_line_break (x t : str) :
  Forall (fun c => is_linebreak c = false) x ->
  splitlines (x ++ newline :: t) = x :: splitlines t.
Proof.
  induction 1 as [|c x Hc Hx IH].
  - destruct t; reflexivity.
  - change ((c :: x) ++ newline :: t) with (c :: (x ++ newline :: t)).
    simpl splitlines at 1. rewrite Hc.
    destruct (splitlines (x ++ newline :: t)) as [|l ls] eqn:E; [discriminate|].
    by injection IH as -> ->.
Qed.

Lemma splitlines_one (x : str) :
  nonempty x = true -> Forall (fun c => is_linebreak c = false) x ->
  splitlines x = [x].
Proof.
  intros Hne Hx. induction Hx as [|c x Hc Hx IH]; [discriminate|].
  simpl. rewrite Hc. destruct x as [|d x]; [reflexivity|].
  rewrite IH by reflexivity. reflexivity.
Qed.

Lemma splitlines_join_lines (cs : list str) :
  Forall clean_chunk cs -> splitlines (join_lines cs) = cs.
Proof.
  induction 1 as [|c cs (Hne & Hlb & _) Hcs IH]; [reflexivity|].
  destruct cs as [|c' cs].
  - simpl. by apply splitlines_one.
  - change (join_lines (c :: c' :: cs))
      with (c ++ newline :: join_lines (c' :: cs)).
    rewrite splitlines_line_break by exact Hlb. by rewrite IH.
Qed.

Lemma flat_map_split2_clean (cs : list str) :
  Forall clean_chunk cs -> flat_map split2 cs = cs.
Proof.
  induction 1 as [|c cs (_ & _ & Hds & _) Hcs IH]; [reflexivity|].
  simpl. rewrite (split2_single c Hds), IH. reflexivity.
Qed.

Lemma map_strip_clean (cs : list str) :
  Forall clean_chunk cs -> map strip cs = cs.
Proof.
  induction 1 as [|c cs (_ & _ & _ & Ht) Hcs IH]; [reflexivity|].
  simpl. rewrite (trimmed_strip c Ht), IH. reflexivity.
Qed.

Lemma filter_nonempty_clean (cs : list str) :
  Forall clean_chunk cs -> List.filter nonempty cs = cs.
Proof.
  induction 1 as [|c cs (Hne & _) Hcs IH]; [reflexivity|].
  simpl. rewrite Hne, IH. reflexivity.
Qed.

Lemma chunks_of_clean (text : str) : Forall clean_chunk (chunks_of text).
Proof.
  unfold chunks_of. apply Forall_forall. intros c Hc.
  apply list_elem_of_In, filter_In in Hc as [Hc Hne].
  apply in_map_iff in Hc as (f & <- & Hf).
  apply in_flat_map in Hf as (l & Hl & Hf).
  apply in_map_iff in Hl as (l0 & <- & Hl0).
  pose proof (splitlines_one_line text) as Hlines.
  rewrite Forall_forall in Hlines.
  assert (Hlb : Forall (fun x => is_linebreak x = false) (strip l0)).
  { apply Forall_strip, Hlines. by apply list_elem_of_In. }
  apply (split2_Forall _ _) in Hlb. rewrite Forall_forall in Hlb.
  destruct (split2_fragments (strip l0)) as (f0 & fs & E & _ & Hds).
  rewrite E in Hf, Hlb. rewrite Forall_forall in Hds.
  apply list_elem_of_In in Hf.
  split; [exact Hne|]. split; [|split].
  - apply Forall_strip, Hlb, Hf.
  - apply has_double_space_strip, Hds, Hf.
  - apply strip_trimmed.
Qed.

(** Cleaning leaves text made of clean chunks as it is. *)
Lemma clean_text_join_lines (cs : list str) :
  Forall clean_chunk cs -> clean_text (join_lines cs) = join_lines cs.
Proof.
  intros H. unfold clean_text.
  rewrite (splitlines_join_lines cs H), (map_strip_clean cs H),
    (flat_map_split2_clean cs H), (map_strip_clean cs H),
    (filter_nonempty_clean cs H).
  reflexivity.
Qed.

(** C8.  The text cleaning of [get_filing_text] is idempotent: cleaning
    text that is already cleaned gives the same text, for every input. *)
Theorem clean_text_idempotent (text : str) :
  clean_text (clean_text text) = clean_text text.
Proof.
  change (clean_text text) with (join_lines (chunks_of text)).
  apply clean_text_join_lines, chunks_of_clean.
Qed.

(** ** Product names *)

(** Every way an expression matches leaves a suffix no longer than the
    input. *)
Lemma rep_with_shorter (step : str -> list str) (greedy : bool) :
  (forall s t, In t (step s) -> (length t <= length s)%nat) ->
  forall (n lo : nat) (s t : str),
    In t (rep_with step greedy n lo s) -> (length t <= length s)%nat.
Proof.
  intros Hstep. induction n as [|n IH]; intros lo s t; simpl.
  - destruct lo; simpl; [intros [<-|[]]; lia | intros []].
  - assert (Hmore : In t (flat_map (rep_with step greedy n (Nat.pred lo)) (step s))
                    -> (length t <= length s)%nat).
    { intros (u & Hu & Ht)%in_flat_map.
      apply Hstep in Hu. apply IH in Ht. lia. }
    destruct lo; [|exact Hmore].
    destruct greedy; intros [H|H]%in_app_or; auto;
      destruct H as [<-|[]]; lia.
Qed.

Lemma one_char_shorter (ok : ascii -> bool) (s t : str) :
  In t (one_char ok s) -> exists d, s = d :: t /\ ok d = true.
Proof.
  destruct s as [|d s]; simpl; [intros []|].
  destruct (ok d) eqn:E; [|intros []]. intros [<-|[]]. eauto.
Qed.

Lemma matches_shorter (ic : bool) (r : regex) :
  forall s t : str, In t (matches ic r s) -> (length t <= length s)%nat.
Proof.
  induction r as [| c | neg p | r1 IH1 r2 IH2 | greedy lo hi r IH];
    intros s t; simpl.
  - intros [<-|[]]. lia.
  - intros (d & -> & _)%one_char_shorter. simpl. lia.
  - intros (d & -> & _)%one_char_shorter. simpl. lia.
  - intros (u & Hu & Ht)%in_flat_map. apply IH1 in Hu. apply IH2 in Ht. lia.
  - apply rep_with_shorter. exact IH.
Qed.

(** When the group of a pattern starts with a character class, what the
    group captures starts with a character of that class. *)
Lemma match_at_group_head (p : pattern) (neg : bool) (q : ascii -> bool)
  (r : regex) (s g : str) :
  group p = Cat (Cls neg q) r ->
  In g (match_at p s) ->
  exists d rest, g = d :: rest /\ cls_match (ignorecase p) neg q d = true.
Proof.
  intros Hg. unfold match_at. rewrite Hg.
  intros (t1 & _ & (t2 & Ht2 & (t3 & <- & _)%in_map_iff)%in_flat_map)%in_flat_map.
  simpl in Ht2. apply in_flat_map in Ht2 as (u & Hu & Ht2).
  apply one_char_shorter in Hu as (d & -> & Hd).
  apply matches_shorter in Ht2.
  exists d. simpl length.
  replace (S (length u) - length t2)%nat with (S (length u - length t2)) by lia.
  simpl. eauto.
Qed.

Lemma search_found (p : pattern) (s g : str) :
  search p s = Some g -> exists s', In g (match_at p s').
Proof.
  induction s as [|c s IH]; simpl.
  - destruct (match_at p []) as [|g' l] eqn:E; simpl; [discriminate|].
    intros [= <-]. exists []. rewrite E. by left.
  - destruct (match_at p (c :: s)) as [|g' l] eqn:E; simpl; [exact IH|].
    intros [= <-]. exists (c :: s). rewrite E. by left.
Qed.

Lemma letter_not_space (ic : bool) (d : ascii) :
  cls_match ic false is_AZ d = true -> is_space d = false.
Proof.
  destruct ic, d as [[] [] [] [] [] [] [] []]; vm_compute; congruence.
Qed.

Lemma lstrip_snoc (s : str) (d : ascii) :
  is_space d = false -> lstrip (s ++ [d]) <> [].
Proof.
  intros Hd. induction s as [|c s IH]; simpl.
  - by rewrite Hd.
  - destruct (is_space c); [exact IH | discriminate].
Qed.

Lemma strip_starts (d : ascii) (rest : str) :
  is_space d = false -> strip (d :: rest) <> [].
Proof.
  intros Hd. unfold strip, rstrip. simpl lstrip. rewrite Hd. simpl rev.
  intros H. apply (f_equal (@rev ascii)) in H.
  rewrite rev_involutive in H. simpl in H.
  by apply (lstrip_snoc (rev rest) d Hd).
Qed.

Lemma search_capital_nonempty (p : pattern) (r : regex) (s g : str) :
  group p = Cat (Cls false is_AZ) r ->
  search p s = Some g -> strip g <> [].
Proof.
  intros Hg [s' Hin]%search_found.
  destruct (match_at_group_head p false is_AZ r s' g Hg Hin)
    as (d & rest & -> & Hd).
  apply strip_starts. eapply letter_not_space. exact Hd.
Qed.

(** Formatting the template of pattern 1 gives the pattern text; formatting
    the template of pattern 3 raises, whatever the argument: the field 0,4
    names no argument. *)
Lemma format_quote_template (arg : str) :
  format quote_template [arg] =
    ret (arg ++ py "[^" ++ [dquote] ++ py "]*" ++ [dquote]
           ++ py "([^" ++ [dquote] ++ py "]+)" ++ [dquote]).
Proof. reflexivity. Qed.

Lemma format_the_template (arg : str) :
  format the_template [arg] = raise (KeyError (py "0,4")).
Proof. reflexivity. Qed.

(** The three outcomes of the extractor.  What a search for pattern 3 would
    give plays no part. *)
Lemma extract_product_name_with_cases (compiled_search : str -> str -> option str)
  (context keyword : str) :
  extract_product_name_with compiled_search context keyword =
    match heuristic1 context keyword with
    | Some g => ret (strip g)
    | None =>
        match heuristic2 context keyword with
        | Some g => ret (strip g)
        | None => raise (KeyError (py "0,4"))
        end
    end.
Proof.
  unfold extract_product_name_with.
  rewrite format_quote_template, format_the_template. simpl.
  destruct (heuristic1 context keyword); [reflexivity|].
  destruct (heuristic2 context keyword); reflexivity.
Qed.

Lemma extract_product_name_cases (context keyword : str) :
  extract_product_name context keyword =
    match heuristic1 context keyword with
    | Some g => ret (strip g)
    | None =>
        match heuristic2 context keyword with
        | Some g => ret (strip g)
        | None => raise (KeyError (py "0,4"))
        end
    end.
Proof. apply extract_product_name_with_cases. Qed.

(** An empty name can only come from the quoted-phrase pattern, when what
    it captures strips to nothing. *)
Lemma empty_name_only_from_quotes (context keyword : str) :
  extract_product_name context keyword = ret [] ->
  exists g, heuristic1 context keyword = Some g /\ strip g = [].
Proof.
  rewrite extract_product_name_cases.
  destruct (heuristic1 context keyword) as [g|]; [intros [= H]; by eauto|].
  destruct (heuristic2 context keyword) as [g|] eqn:E2; [|discriminate].
  intros [= H]. unfold heuristic2 in E2.
  by eapply search_capital_nonempty in E2; [|reflexivity].
Qed.

(** C1.  For the sample text, [contains_product_info] finds the keyword
    announce, third in configured order, and returns the whole text as
    context, which holds the words announced the iPhone 17.  On that context
    the quoted-phrase pattern does not match; the capitalised-run pattern
    matches inside the token iPhone, and the extractor returns Phone, not
    iPhone 17.  Pattern 3 plays no part: the result is the same whatever a
    search for it would give, and its template cannot be formatted. *)
Theorem end_to_end_scenario :
  contains_product_info sample_text = (true, sample_text, py "announce") /\
  py_in (py "announced the iPhone 17") sample_text = true /\
  heuristic1 sample_text (py "announce") = None /\
  heuristic2 sample_text (py "announce") = Some (py "Phone") /\
  (forall compiled_search,
     extract_product_name_with compiled_search sample_text (py "announce") =
       ret (py "Phone")) /\
  extract_product_name sample_text (py "announce") = ret (py "Phone") /\
  format the_template [re_escape (py "announce")] = raise (KeyError (py "0,4")).
Proof.
  repeat split; intros; vm_compute; reflexivity.
Qed.

(** C3.  The capitalised-run pattern has no word boundary in front: in the
    text after the keyword, d the iPhone 17 with new features., it matches
    inside the token iPhone, at its upper-case letter, and the extractor
    returns Phone, which is not a run of whole tokens. *)
Theorem cap_words_mid_token :
  heuristic1 sample_text (py "announce") = None /\
  words_after sample_text (py "announce") =
    py "d the i" ++ py "Phone" ++ py " 17 with new features." /\
  is_alnum "i"%char = true /\
  heuristic2 sample_text (py "announce") = Some (py "Phone") /\
  extract_product_name sample_text (py "announce") = ret (py "Phone").
Proof. repeat split; vm_compute; reflexivity. Qed.

(** C2.  A quoted phrase of white space only is captured by the first
    pattern and stripped to the empty string, which is returned in place of
    a name.  In the fallback context neither the quoted-phrase pattern nor
    the capitalised-run pattern matches, and the extractor does not return
    the placeholder: it raises the KeyError of formatting the template of
    pattern 3, whatever a search for that pattern would give. *)
Theorem blank_quote_gives_empty_name :
  extract_product_name blank_quote_context (py "announce") = ret [] /\
  heuristic1 fallback_context (py "announce") = None /\
  heuristic2 fallback_context (py "announce") = None /\
  (forall compiled_search,
     extract_product_name_with compiled_search fallback_context (py "announce") =
       raise (KeyError (py "0,4"))) /\
  extract_product_name fallback_context (py "announce") =
    raise (KeyError (py "0,4")).
Proof.
  repeat split; intros; vm_compute; reflexivity.
Qed.

(** * Further properties *)

(** ** The detector *)

Lemma scan_keywords_none (text text_lower : str) (keywords : list str) :
  scan_keywords text text_lower keywords = (false, [], []) <->
  Forall (fun k => py_in k text_lower = false) keywords.
Proof.
  induction keywords as [|k ks IH]; simpl.
  - split; [constructor | reflexivity].
  - destruct (py_in k text_lower) eqn:E.
    + split; [discriminate|]. intros H. inversion H; congruence.
    + rewrite IH. split; [by constructor | by inversion 1].
Qed.

Lemma scan_keywords_flag (text text_lower : str) (keywords : list str) :
  fst (fst (scan_keywords text text_lower keywords)) = true <->
  Exists (fun k => py_in k text_lower = true) keywords.
Proof.
  induction keywords as [|k ks IH]; simpl.
  - split; [discriminate | by inversion 1].
  - destruct (py_in k text_lower) eqn:E; simpl.
    + split; [by left | reflexivity].
    + rewrite IH. split; [by right|]. inversion 1; [congruence | assumption].
Qed.

(** X1.  The detector reports a match exactly when one of the keywords
    occurs in the lower-cased text, and otherwise returns the triple of
    [False] and two empty strings. *)
Theorem detection_complete (keywords : list str) (text : str) :
  (fst (fst (contains_product_info_with keywords text)) = true <->
   Exists (fun k => py_in k (lower text) = true) keywords) /\
  (contains_product_info_with keywords text = (false, [], []) <->
   Forall (fun k => py_in k (lower text) = false) keywords).
Proof.
  unfold contains_product_info_with.
  split; [apply scan_keywords_flag | apply scan_keywords_none].
Qed.

(** X2.  Detection looks at the lower-cased text only.  Over all code
    points and for every [str.lower]: when lower-casing the lower-cased text
    changes nothing, the detector gives on the lower-cased text the same
    flag and the same keyword as on the text, and as context the window of
    the lower-cased text at the index found. *)
Theorem detection_ignores_case (lower : Unicode.ustr -> Unicode.ustr)
  (keywords : list Unicode.ustr) (text : Unicode.ustr) :
  lower (lower text) = lower text ->
  Unicode.contains_product_info_with lower keywords (lower text) =
  let '(found, _, keyword) :=
    Unicode.contains_product_info_with lower keywords text in
  (found,
   if found
   then context_window (lower text) (Unicode.find (lower text) keyword)
   else [],
   keyword).
Proof.
  intros Hl. unfold Unicode.contains_product_info_with. rewrite Hl.
  induction keywords as [|k ks IH]; simpl; [reflexivity|].
  destruct (Unicode.py_in k (lower text)); [reflexivity | exact IH].
Qed.

Lemma detection_ignores_case_witness :
  Unicode.lower (Unicode.lower dotted_text) = Unicode.lower dotted_text /\
  Unicode.contains_product_info (Unicode.lower dotted_text) =
    (true,
     context_window (Unicode.lower dotted_text) 241,
     Unicode.points (py "launch")).
Proof.
  assert (H : Unicode.lower (Unicode.lower dotted_text) = Unicode.lower dotted_text)
    by (vm_compute; reflexivity).
  split; [exact H|].
  unfold Unicode.contains_product_info.
  rewrite (detection_ignores_case Unicode.lower
             (map Unicode.points Config.PRODUCT_KEYWORDS) dotted_text H).
  vm_compute. reflexivity.
Defined.

Lemma lower_char_not_capital (c : ascii) : has_lower (lower_char c) = false.
Proof. destruct c as [[] [] [] [] [] [] [] []]; vm_compute; reflexivity. Qed.

Lemma py_in_app (k s : str) :
  py_in k s = true <-> exists pre post, s = pre ++ k ++ post.
Proof.
  induction s as [|c s IH]; simpl.
  - rewrite orb_false_r, startswith_app. split.
    + intros [t Ht]. by exists [], t.
    + intros (pre & post & H). symmetry in H.
      apply app_eq_nil in H as [-> H]. apply app_eq_nil in H as [-> ->].
      by exists [].
  - rewrite orb_true_iff, startswith_app, IH. split.
    + intros [[t Ht]|(pre & post & ->)].
      * by exists [], t.
      * by exists (c :: pre), post.
    + intros (pre & post & H). destruct pre as [|c' pre].
      * left. by exists post.
      * injection H as <- ->. right. by exists pre, post.
Qed.

Lemma capital_never_found (k text : str) :
  Exists (fun c => has_lower c = true) k -> py_in k (lower text) = false.
Proof.
  intros Hk. destruct (py_in k (lower text)) eqn:E; [|reflexivity].
  apply py_in_app in E as (pre & post & E).
  assert (H : Forall (fun c => has_lower c = false) (lower text)).
  { unfold lower. apply Forall_forall. intros c Hc.
    apply list_elem_of_In, in_map_iff in Hc as (c' & <- & _).
    apply lower_char_not_capital. }
  rewrite E in H. apply Forall_app in H as [_ H]. apply Forall_app in H as [H _].
  apply Exists_exists in Hk as (c & Hc & Hcap).
  rewrite Forall_forall in H. rewrite (H c Hc) in Hcap. discriminate.
Qed.

(** X3.  Keywords are compared as they are configured, only the text is
    lower-cased: a keyword that holds an upper-case letter is never found,
    and the detector answers as if it were not configured. *)
Theorem capital_keyword_is_dead (pre post : list str) (k : str) (text : str) :
  Exists (fun c => has_lower c = true) k ->
  contains_product_info_with (pre ++ k :: post) text =
  contains_product_info_with (pre ++ post) text.
Proof.
  intros Hk. unfold contains_product_info_with.
  induction pre as [|k' pre IH]; simpl.
  - by rewrite (capital_never_found k text Hk).
  - destruct (py_in k' (lower text)); [reflexivity | exact IH].
Qed.

Lemma capital_keyword_is_dead_witness :
  Exists (fun c => has_lower c = true) capital_keyword /\
  contains_product_info_with ([py "unveil"] ++ capital_keyword :: [py "today"])
    capital_text = (true, capital_text, py "today").
Proof.
  assert (H : Exists (fun c => has_lower c = true) capital_keyword)
    by (left; reflexivity).
  split; [exact H|].
  rewrite (capital_keyword_is_dead [py "unveil"] [py "today"] capital_keyword
             capital_text H).
  vm_compute. reflexivity.
Defined.

(** X4.  Over all code points and for every [str.lower]: when the
    detector reports a keyword, it is one of the configured keywords, it
    occurs in the lower-cased text, first at some index [i], and the context
    is the slice of the text from [max(0, i - 100)] to
    [min(len(text), i + 200)]: a contiguous part of the text, of at most
    300 characters. *)
Theorem context_is_window_slice (lower : Unicode.ustr -> Unicode.ustr)
  (keywords : list Unicode.ustr) (text context keyword : Unicode.ustr) :
  Unicode.contains_product_info_with lower keywords text
    = (true, context, keyword) ->
  keyword ∈ keywords /\
  exists i : nat,
    Unicode.find (lower text) keyword = Z.of_nat i /\
    Unicode.startswith keyword (drop i (lower text)) = true /\
    (forall m : nat, (m < i)%nat ->
       Unicode.startswith keyword (drop m (lower text)) = false) /\
    context = slice text (Z.max 0 (Z.of_nat i - 100))
                (Z.min (len text) (Z.of_nat i + 200)) /\
    len context <= 300 /\
    exists pre post, text = pre ++ context ++ post.
Proof.
  unfold Unicode.contains_product_info_with. intros H.
  apply UnicodeFacts.points_scan_keywords_found in H as (Hk & Hin & ->).
  split; [exact Hk|].
  destruct (UnicodeFacts.points_find_from_in keyword (lower text) 0 Hin)
    as (i & Hi & Hs & Hmin).
  exists i. unfold Unicode.find. rewrite Hi. simpl (0 + Z.of_nat i).
  split; [reflexivity|]. split; [exact Hs|]. split; [exact Hmin|].
  split; [reflexivity|].
  split; [apply context_window_length; lia|].
  apply slice_part.
Qed.

Lemma context_is_window_slice_witness :
  Unicode.contains_product_info dotted_text =
    (true, repeat (ord "z"%char) 37, Unicode.points (py "launch")) /\
  Unicode.points (py "launch") ∈ map Unicode.points Config.PRODUCT_KEYWORDS /\
  exists i : nat,
    Unicode.find (Unicode.lower dotted_text) (Unicode.points (py "launch"))
      = Z.of_nat i /\
    Unicode.startswith (Unicode.points (py "launch"))
      (drop i (Unicode.lower dotted_text)) = true /\
    (forall m : nat, (m < i)%nat ->
       Unicode.startswith (Unicode.points (py "launch"))
         (drop m (Unicode.lower dotted_text)) = false) /\
    repeat (ord "z"%char) 37 =
      slice dotted_text (Z.max 0 (Z.of_nat i - 100))
        (Z.min (len dotted_text) (Z.of_nat i + 200)) /\
    len (repeat (ord "z"%char) 37) <= 300 /\
    exists pre post, dotted_text = pre ++ repeat (ord "z"%char) 37 ++ post.
Proof.
  split; [vm_compute; reflexivity|].
  apply (context_is_window_slice Unicode.lower
           (map Unicode.points Config.PRODUCT_KEYWORDS) dotted_text).
  vm_compute. reflexivity.
Defined.


(** ** The extractor *)

Lemma rep_with_consumed (P : ascii -> bool) (step : str -> list str)
  (greedy : bool) :
  (forall s t, In t (step s) ->
     exists pre, s = pre ++ t /\ Forall (fun c => P c = true) pre) ->
  forall (n lo : nat) (s t : str),
    In t (rep_with step greedy n lo s) ->
    exists pre, s = pre ++ t /\ Forall (fun c => P c = true) pre.
Proof.
  intros Hstep. induction n as [|n IH]; intros lo s t; simpl.
  - destruct lo; simpl; [|intros []].
    intros [<-|[]]. exists []. split; [reflexivity | constructor].
  - assert (Hmore : In t (flat_map (rep_with step greedy n (Nat.pred lo)) (step s))
            -> exists pre, s = pre ++ t /\ Forall (fun c => P c = true) pre).
    { intros (u & Hu & Ht)%in_flat_map.
      apply Hstep in Hu as (p1 & -> & H1). apply IH in Ht as (p2 & -> & H2).
      exists (p1 ++ p2). split; [by rewrite <- app_assoc|].
      by apply Forall_app. }
    assert (Hstop : In t [s]
            -> exists pre, s = pre ++ t /\ Forall (fun c => P c = true) pre).
    { intros [<-|[]]. exists []. split; [reflexivity | constructor]. }
    destruct lo; [|exact Hmore].
    destruct greedy; intros [H|H]%in_app_or; auto.
Qed.

(** What an expression consumes is a prefix of the input made of
    characters it can consume. *)
Lemma matches_consumed (ic : bool) (P : ascii -> bool) (r : regex) :
  consumes_only ic P r ->
  forall s t : str, In t (matches ic r s) ->
    exists pre, s = pre ++ t /\ Forall (fun c => P c = true) pre.
Proof.
  induction r as [| c | neg p | r1 IH1 r2 IH2 | greedy lo hi r IH];
    simpl; intros Hr s t.
  - intros [<-|[]]. exists []. split; [reflexivity | constructor].
  - intros (d & -> & Hd)%one_char_shorter. exists [d].
    split; [reflexivity|]. constructor; [by apply Hr | constructor].
  - intros (d & -> & Hd)%one_char_shorter. exists [d].
    split; [reflexivity|]. constructor; [by apply Hr | constructor].
  - destruct Hr as [Hr1 Hr2]. intros (u & Hu & Ht)%in_flat_map.
    apply (IH1 Hr1) in Hu as (p1 & -> & H1).
    apply (IH2 Hr2) in Ht as (p2 & -> & H2).
    exists (p1 ++ p2). split; [by rewrite <- app_assoc|]. by apply Forall_app.
  - apply rep_with_consumed. apply IH. exact Hr.
Qed.

(** What [search] returns is made of characters the group can consume. *)
Lemma search_group_chars (P : ascii -> bool) (p : pattern) (s g : str) :
  consumes_only (ignorecase p) P (group p) ->
  search p s = Some g -> Forall (fun c => P c = true) g.
Proof.
  intros Hg [s' Hin]%search_found. unfold match_at in Hin.
  apply in_flat_map in Hin as (t1 & _ & Hin).
  apply in_flat_map in Hin as (t2 & Ht2 & Hin).
  apply in_map_iff in Hin as (t3 & <- & _).
  apply (matches_consumed _ P _ Hg) in Ht2 as (pre & -> & Hpre).
  rewrite length_app.
  replace (length pre + length t2 - length t2)%nat with (length pre) by lia.
  rewrite take_app_length. exact Hpre.
Qed.

Lemma quote_group_chars (keyword : str) :
  consumes_only true not_quote (group (quote_pattern keyword)).
Proof.
  simpl. intros d. unfold cls_match, not_quote.
  destruct (is_quote d); simpl; [discriminate | reflexivity].
Qed.

Ltac by_cases_on_char d :=
  destruct d as [[] [] [] [] [] [] [] []]; vm_compute; congruence.

Lemma cap_words_group_chars :
  consumes_only false alnum_or_space (group cap_words_pattern).
Proof. simpl. repeat split; intros d; by_cases_on_char d. Qed.

Lemma alnum_or_space_not_quote (d : ascii) :
  alnum_or_space d = true -> not_quote d = true.
Proof. by_cases_on_char d. Qed.

(** X5.  A name the extractor returns never holds a double quote. *)
Theorem name_has_no_quote (context keyword name : str) :
  extract_product_name context keyword = ret name ->
  Forall (fun c => not_quote c = true) name.
Proof.
  rewrite extract_product_name_cases.
  destruct (heuristic1 context keyword) as [g|] eqn:E1.
  { intros [= <-]. apply Forall_strip.
    apply (search_group_chars not_quote (quote_pattern keyword) _ _
             (quote_group_chars keyword) E1). }
  destruct (heuristic2 context keyword) as [g|] eqn:E2; [|discriminate].
  intros [= <-]. apply Forall_strip.
  eapply Forall_impl; [|apply alnum_or_space_not_quote].
  apply (search_group_chars alnum_or_space cap_words_pattern _ _
           cap_words_group_chars E2).
Qed.

Lemma name_has_no_quote_witness :
  extract_product_name sample_text (py "announce") = ret (py "Phone") /\
  Forall (fun c => not_quote c = true) (py "Phone").
Proof.
  split; [vm_compute; reflexivity|].
  apply (name_has_no_quote sample_text (py "announce")).
  vm_compute. reflexivity.
Defined.

(** X6.  A name the extractor returns has no white space at either end. *)
Theorem name_is_trimmed (context keyword name : str) :
  extract_product_name context keyword = ret name -> trimmed name.
Proof.
  rewrite extract_product_name_cases.
  destruct (heuristic1 context keyword);
    [intros [= <-]; apply strip_trimmed|].
  destruct (heuristic2 context keyword); [|discriminate].
  intros [= <-]. apply strip_trimmed.
Qed.

Lemma name_is_trimmed_witness :
  extract_product_name sample_text (py "announce") = ret (py "Phone") /\
  trimmed (py "Phone").
Proof.
  split; [vm_compute; reflexivity|].
  apply (name_is_trimmed sample_text (py "announce")).
  vm_compute. reflexivity.
Defined.

Lemma strip_keeps_head (d : ascii) (rest : str) :
  is_space d = false -> exists rest', strip (d :: rest) = d :: rest'.
Proof.
  intros Hd. pose proof (strip_starts d rest Hd) as Hne.
  unfold strip in *. simpl lstrip in *. rewrite Hd in *.
  destruct (rstrip_prefix (d :: rest)) as [sp Hsp].
  destruct (rstrip (d :: rest)) as [|d' rest']; [congruence|].
  injection Hsp as <- _. eauto.
Qed.

Lemma capital_is_capital (d : ascii) :
  cls_match false false is_AZ d = true -> is_AZ d = true.
Proof. unfold cls_match. simpl. intros H. exact H. Qed.

Lemma search_capital_head (p : pattern) (r : regex) (s g : str) :
  group p = Cat (Cls false is_AZ) r ->
  ignorecase p = false ->
  consumes_only false alnum_or_space (group p) ->
  search p s = Some g ->
  exists d rest, strip g = d :: rest /\
    is_AZ d = true /\
    Forall (fun c => alnum_or_space c = true) (d :: rest).
Proof.
  intros Hg Hic Hc Hs. rewrite <- Hic in Hc.
  pose proof (search_group_chars alnum_or_space p s g Hc Hs) as Hall.
  destruct (search_found _ _ _ Hs) as [s' Hin].
  destruct (match_at_group_head p false is_AZ r s' g Hg Hin)
    as (d & rest & -> & Hd).
  destruct (strip_keeps_head d rest (letter_not_space _ _ Hd)) as [rest' E].
  exists d, rest'. split; [exact E|].
  rewrite Hic in Hd. split; [exact (capital_is_capital d Hd)|].
  rewrite <- E. by apply Forall_strip.
Qed.

(** X7.  When the quoted-phrase pattern does not match, a name the
    extractor returns comes from the capitalised-run pattern: it starts with
    an upper-case ASCII letter and is made of ASCII letters, digits and
    white space only. *)
Theorem unquoted_name_shape (context keyword name : str) :
  heuristic1 context keyword = None ->
  extract_product_name context keyword = ret name ->
  exists g d rest,
    heuristic2 context keyword = Some g /\
    name = strip g /\
    name = d :: rest /\
    is_AZ d = true /\
    Forall (fun c => alnum_or_space c = true) name.
Proof.
  intros E1. rewrite extract_product_name_cases, E1.
  destruct (heuristic2 context keyword) as [g|] eqn:E2; [|discriminate].
  intros [= <-].
  destruct (search_capital_head cap_words_pattern _ _ _ eq_refl eq_refl
              cap_words_group_chars E2)
    as (d & rest & E & Hcap & Hall).
  exists g, d, rest. split; [reflexivity|]. split; [reflexivity|].
  split; [exact E|]. split; [exact Hcap|]. rewrite E. exact Hall.
Qed.

Lemma unquoted_name_shape_witness :
  heuristic1 sample_text (py "announce") = None /\
  extract_product_name sample_text (py "announce") = ret (py "Phone") /\
  exists g d rest,
    heuristic2 sample_text (py "announce") = Some g /\
    py "Phone" = strip g /\
    py "Phone" = d :: rest /\
    is_AZ d = true /\
    Forall (fun c => alnum_or_space c = true) (py "Phone").
Proof.
  split; [vm_compute; reflexivity|]. split; [vm_compute; reflexivity|].
  apply (unquoted_name_shape sample_text (py "announce"));
    vm_compute; reflexivity.
Defined.

(** X8.  The extractor returns the empty string in one case only: the
    quoted-phrase pattern matches and what it captures is white space. *)
Theorem name_empty_iff_blank_quote (context keyword : str) :
  extract_product_name context keyword = ret [] <->
  exists g, heuristic1 context keyword = Some g /\ strip g = [].
Proof.
  split; [apply empty_name_only_from_quotes|].
  intros (g & E & Hg). rewrite extract_product_name_cases, E, Hg.
  reflexivity.
Qed.

Lemma py_in_empty (s : str) : py_in [] s = true.
Proof. destruct s; reflexivity. Qed.

Lemma words_after_absent (context keyword : str) :
  py_in keyword (lower context) = false ->
  words_after context keyword = strip (drop (length keyword - 1) context).
Proof.
  intros Habs. unfold words_after, find.
  rewrite (find_from_not_in _ _ 0 Habs).
  destruct keyword as [|c k]; [by rewrite py_in_empty in Habs|].
  unfold slice_from, slice_index, len.
  change (length (c :: k)) with (S (length k)).
  destruct (-1 + Z.of_nat (S (length k)) <? 0) eqn:E.
  { apply Z.ltb_lt in E. lia. }
  f_equal. destruct (decide (length k <= length context)%nat) as [Hle|Hgt].
  - f_equal. lia.
  - rewrite !drop_ge by lia. reflexivity.
Qed.

(** X9.  When the lower-cased context does not hold the keyword, [find]
    gives -1 and the text after the keyword is taken from offset
    [len(keyword) - 1] of the context.  The extractor then answers with the
    quoted phrase if pattern 1 matches, else with a capitalised run of that
    text if there is one, and else raises the KeyError of pattern 3. *)
Theorem words_after_absent_keyword (context keyword : str) :
  py_in keyword (lower context) = false ->
  words_after context keyword = strip (drop (length keyword - 1) context) /\
  extract_product_name context keyword =
    match heuristic1 context keyword with
    | Some g => ret (strip g)
    | None =>
        match search cap_words_pattern
                (strip (drop (length keyword - 1) context)) with
        | Some g => ret (strip g)
        | None => raise (KeyError (py "0,4"))
        end
    end.
Proof.
  intros Habs. pose proof (words_after_absent context keyword Habs) as Hw.
  split; [exact Hw|].
  rewrite extract_product_name_cases. unfold heuristic2. rewrite Hw.
  reflexivity.
Qed.

Lemma words_after_absent_keyword_witness :
  py_in (py "launch") (lower stray_context) = false /\
  words_after stray_context (py "launch") = py "odel here" /\
  extract_product_name stray_context (py "launch") =
    raise (KeyError (py "0,4")).
Proof.
  split; [vm_compute; reflexivity|].
  destruct (words_after_absent_keyword stray_context (py "launch"))
    as [Hw He]; [vm_compute; reflexivity|].
  split; [rewrite Hw | rewrite He]; vm_compute; reflexivity.
Defined.

(** X26.  The extractor returns a name exactly when the quoted-phrase
    pattern or the capitalised-run pattern matches, and that name is the
    stripped capture of the first of the two that matches.  When neither
    matches it raises the KeyError of formatting the template of pattern 3:
    no name comes from pattern 3, and the placeholder is never returned for
    want of a match. *)
Theorem name_or_key_error (context keyword : str) :
  (forall name,
     extract_product_name context keyword = ret name <->
     (exists g, heuristic1 context keyword = Some g /\ name = strip g) \/
     (heuristic1 context keyword = None /\
      exists g, heuristic2 context keyword = Some g /\ name = strip g)) /\
  (forall e,
     extract_product_name context keyword = raise e <->
     heuristic1 context keyword = None /\
     heuristic2 context keyword = None /\
     e = KeyError (py "0,4")) /\
  (forall compiled_search,
     extract_product_name_with compiled_search context keyword =
     extract_product_name context keyword).
Proof.
  split; [|split].
  - intros name. rewrite extract_product_name_cases.
    destruct (heuristic1 context keyword) as [g1|].
    + split.
      * intros [= <-]. left. eauto.
      * intros [(g & [= <-] & ->)|[H _]]; [reflexivity | discriminate].
    + destruct (heuristic2 context keyword) as [g2|].
      * split.
        -- intros [= <-]. right. eauto.
        -- intros [(g & H & _)|(_ & g & [= <-] & ->)];
             [discriminate | reflexivity].
      * split; [discriminate|].
        intros [(g & H & _)|(_ & g & H & _)]; discriminate.
  - intros e. rewrite extract_product_name_cases.
    destruct (heuristic1 context keyword) as [g1|].
    + split; [discriminate | intros [H _]; discriminate].
    + destruct (heuristic2 context keyword) as [g2|].
      * split; [discriminate | intros (_ & H & _); discriminate].
      * split.
        -- intros [= <-]. auto.
        -- intros (_ & _ & ->). reflexivity.
  - intros compiled_search.
    rewrite extract_product_name_with_cases, extract_product_name_cases.
    reflexivity.
Qed.

Lemma name_or_key_error_witness :
  heuristic1 fallback_context (py "announce") = None /\
  heuristic2 fallback_context (py "announce") = None /\
  extract_product_name fallback_context (py "announce") =
    raise (KeyError (py "0,4")).
Proof.
  assert (H1 : heuristic1 fallback_context (py "announce") = None)
    by (vm_compute; reflexivity).
  assert (H2 : heuristic2 fallback_context (py "announce") = None)
    by (vm_compute; reflexivity).
  split; [exact H1|]. split; [exact H2|].
  apply (proj1 (proj2 (name_or_key_error fallback_context (py "announce")))).
  auto.
Defined.

(** ** The ticker map *)

Lemma tickers_loop_app (a b : list (str * company)) (d : gmap str str) :
  tickers_loop (a ++ b) d = tickers_loop b (tickers_loop a d).
Proof.
  revert d. induction a as [|[key c] a IH]; intros d; simpl; [reflexivity|].
  apply IH.
Qed.

Lemma tickers_loop_other (items : list (str * company)) (t : str) :
  Forall (fun item => ticker (snd item) <> t) items ->
  forall d : gmap str str, tickers_loop items d !! t = d !! t.
Proof.
  induction 1 as [|[key c] items Hc _ IH]; intros d; simpl; [reflexivity|].
  rewrite IH. apply lookup_insert_ne. exact Hc.
Qed.

(** X10.  When the payload lists a ticker more than once, the map keeps the
    identifier of the last entry for it. *)
Theorem last_entry_wins (before after : list (str * company)) (key : str)
  (c : company) :
  Forall (fun item => ticker (snd item) <> ticker c) after ->
  get_company_tickers (ok_reply (before ++ (key, c) :: after)) !! ticker c =
    Some (zfill 10 (str_int (cik_str c))).
Proof.
  intros Hafter. unfold get_company_tickers, ok_reply.
  cbn [status_code json Z.eqb Pos.eqb negb].
  rewrite tickers_loop_app. simpl.
  rewrite (tickers_loop_other after (ticker c) Hafter).
  apply lookup_insert_eq.
Qed.

Lemma last_entry_wins_witness :
  get_company_tickers (ok_reply twice_listed) !! py "AAPL" =
    Some (py "0000320193").
Proof.
  apply (last_entry_wins
           [ (py "0", {| ticker := py "AAPL"; cik_str := 1 |});
             (py "1", {| ticker := py "MSFT"; cik_str := 789019 |}) ]
           [] (py "2") {| ticker := py "AAPL"; cik_str := 320193 |}).
  constructor.
Defined.

Lemma tickers_loop_domain (items : list (str * company)) (t : str) :
  forall d : gmap str str,
    is_Some (tickers_loop items d !! t) <->
    is_Some (d !! t) \/ exists item, item ∈ items /\ ticker (snd item) = t.
Proof.
  induction items as [|[key c] items IH]; intros d; simpl.
  - split; [by left|]. intros [H|(item & Hin & _)]; [exact H|].
    by apply not_elem_of_nil in Hin.
  - rewrite IH. split.
    + intros [H|(item & Hin & Ht)].
      * destruct (decide (ticker c = t)) as [<-|Hne].
        { right. exists (key, c). split; [left | reflexivity]. }
        { rewrite lookup_insert_ne in H by exact Hne. by left. }
      * right. exists item. split; [by right | exact Ht].
    + intros [H|(item & Hin & Ht)].
      * left. destruct (decide (ticker c = t)) as [<-|Hne].
        { rewrite lookup_insert_eq. eauto. }
        { by rewrite lookup_insert_ne. }
      * apply elem_of_cons in Hin as [->|Hin].
        { left. simpl in Ht. subst t. rewrite lookup_insert_eq. eauto. }
        { right. eauto. }
Qed.

(** X11.  The map holds a ticker exactly when the request succeeded with
    status 200, the body could be decoded, and an entry of the payload has
    that ticker; a failed request, another status or a body that cannot be
    decoded all give the empty map. *)
Theorem tickers_domain (reply : option (response (list (str * company))))
  (t : str) :
  is_Some (get_company_tickers reply !! t) <->
  exists items, reply = ok_reply items /\
    exists item, item ∈ items /\ ticker (snd item) = t.
Proof.
  unfold get_company_tickers, ok_reply. split.
  - destruct reply as [[code body]|]; simpl;
      [|rewrite lookup_empty; by intros [? ?]].
    destruct (code =? 200) eqn:Ecode; simpl;
      [|rewrite lookup_empty; by intros [? ?]].
    apply Z.eqb_eq in Ecode. subst code.
    destruct body as [items|]; [|rewrite lookup_empty; by intros [? ?]].
    intros H. apply tickers_loop_domain in H as [H|H].
    + rewrite lookup_empty in H. by destruct H.
    + exists items. split; [reflexivity | exact H].
  - intros (items & -> & H). cbn [status_code json Z.eqb Pos.eqb negb].
    apply tickers_loop_domain. by right.
Qed.

(** X12.  For every raw id that is not negative the identifier has at
    least 10 characters, all of them digits, and reads back as the id: two
    different ids never get the same identifier. *)
Theorem identifier_round_trip (n : Z) :
  0 <= n ->
  int_of_digits (zfill 10 (str_int n)) = n /\
  (10 <= length (zfill 10 (str_int n)))%nat /\
  Forall (fun c => is_09 c = true) (zfill 10 (str_int n)).
Proof.
  intros Hn. unfold str_int. destruct (n <? 0) eqn:E; [lia|].
  destruct (digits_spec n Hn) as (Hv & Hne & Hd).
  unfold zfill, len. destruct (10 <=? _) eqn:E10.
  - apply Z.leb_le in E10. split; [exact Hv|]. split; [lia | exact Hd].
  - apply Z.leb_gt in E10.
    destruct (digits n) as [|c s] eqn:Ed; [congruence|].
    assert (Hc : is_sign c = false).
    { inversion Hd as [|? ? Hc ?]; subst. revert Hc.
      destruct c as [[] [] [] [] [] [] [] []]; vm_compute; congruence. }
    rewrite Hc. split; [|split].
    + rewrite int_of_digits_zeros. exact Hv.
    + rewrite length_app, length_replicate. simpl in *. lia.
    + apply Forall_app. split; [|exact Hd].
      apply Forall_replicate. reflexivity.
Qed.

Lemma identifier_round_trip_witness :
  int_of_digits (zfill 10 (str_int 12345678901)) = 12345678901 /\
  (10 <= length (zfill 10 (str_int 12345678901)))%nat /\
  Forall (fun c => is_09 c = true) (zfill 10 (str_int 12345678901)).
Proof. apply (identifier_round_trip 12345678901). lia. Defined.

(** ** The filing list *)

Lemma filing_at_inr (recent : recent_filings) (cik : str) (p : nat)
  (f : Filing.t) :
  filing_at recent cik p = inr f ->
  exists accs dates acc date doc,
    accessionNumber recent = Some accs /\ accs !! p = Some acc /\
    filingDate recent = Some dates /\ dates !! p = Some date /\
    default [[]] (primaryDocument recent) !! p = Some doc /\
    f = make_filing cik acc date doc.
Proof.
  unfold filing_at, getitem, index.
  destruct (accessionNumber recent) as [accs|]; simpl; [|discriminate].
  destruct (accs !! p) as [acc|] eqn:Ea; simpl; [|discriminate].
  destruct (filingDate recent) as [dates|]; simpl; [|discriminate].
  destruct (dates !! p) as [date|] eqn:Ed; simpl; [|discriminate].
  destruct (default [[]] (primaryDocument recent) !! p) as [doc|] eqn:Ep;
    simpl; [|discriminate].
  intros [= <-]. exists accs, dates, acc, date, doc. auto 10.
Qed.

Lemma filings_loop_complete (recent : recent_filings) (cik form_type : str)
  (count : Z) (forms : list str) :
  forall (i : nat) (filings recs : list Filing.t),
    filings = [] \/ len filings < count ->
    Forall2 (fun p f => filing_at recent cik p = inr f)
      (take (Z.to_nat (Z.max 1 (count - len filings)))
         (positions_from form_type forms i)) recs ->
    filings_loop recent cik form_type count forms i filings =
      inr (filings ++ recs).
Proof.
  induction forms as [|form_i rest IH]; intros i filings recs Hinv.
  - simpl. rewrite take_nil. intros H. inversion H. by rewrite app_nil_r.
  - rewrite filings_loop_step. simpl positions_from.
    destruct (decide (form_i = form_type)) as [_|_]; [|apply IH; exact Hinv].
    assert (Hpos : 0 <= len filings) by (unfold len; lia).
    destruct (Z.to_nat (Z.max 1 (count - len filings))) as [|n] eqn:En; [lia|].
    simpl. intros H. inversion H as [|? f ? recs' Hf Hrecs]; subst.
    rewrite Hf. simpl.
    assert (Hlen : len (filings ++ [f]) = len filings + 1).
    { unfold len. rewrite length_app. simpl. lia. }
    destruct (len (filings ++ [f]) >=? count) eqn:E.
    + assert (n = 0%nat) by lia. subst n. rewrite take_0 in Hrecs.
      inversion Hrecs. reflexivity.
    + rewrite (IH (S i) (filings ++ [f]) recs'); [by rewrite <- app_assoc | right; lia |].
      replace (Z.to_nat (Z.max 1 (count - len (filings ++ [f])))) with n by lia.
      exact Hrecs.
Qed.

(** X13.  When the two validated keys are present and the loop body raises
    at none of the first [max(1, count)] positions that hold [form_type],
    the result is the list of the records built at these positions, in the
    order of the array. *)
Theorem recent_filings_complete (recent : recent_filings)
  (forms accs : list str) (ticker cik form_type : str) (count : Z)
  (recs : list Filing.t) :
  form recent = Some forms ->
  accessionNumber recent = Some accs ->
  Forall2 (fun p f => filing_at recent cik p = inr f)
    (take (wanted count) (positions_from form_type forms 0)) recs ->
  get_recent_filings (ok_reply (Recent recent)) ticker cik form_type count = recs.
Proof.
  intros Hf Ha Hrecs. unfold get_recent_filings, ok_reply.
  cbn [status_code json Z.eqb Pos.eqb negb]. unfold list_filings.
  rewrite Hf, Ha.
  rewrite (filings_loop_complete recent cik form_type count forms 0 [] recs);
    [reflexivity | by left |].
  unfold len. simpl length. rewrite Z.sub_0_r. exact Hrecs.
Qed.

Lemma recent_filings_complete_witness :
  exists f1 f2,
    get_recent_filings (ok_reply (two_filings (Some [py "a.htm"; []])))
      (py "AAPL") (py "0000320193") (py "8-K") 5 = [f1; f2] /\
    Filing.docUrl f1 <> [] /\ Filing.docUrl f2 = [].
Proof.
  eexists _, _. split; [|split].
  - apply (recent_filings_complete
             {| form := Some [py "8-K"; py "8-K"];
                accessionNumber := Some [py "0000320193-25-000001";
                                         py "0000320193-25-000002"];
                filingDate := Some [py "2025-01-03"; py "2025-01-02"];
                primaryDocument := Some [py "a.htm"; []] |}
             [py "8-K"; py "8-K"]
             [py "0000320193-25-000001"; py "0000320193-25-000002"]
             (py "AAPL") (py "0000320193") (py "8-K") 5);
      [reflexivity | reflexivity |].
    repeat constructor.
  - vm_compute. discriminate.
  - vm_compute. reflexivity.
Defined.

Lemma filings_loop_incomplete (recent : recent_filings) (cik form_type : str)
  (count : Z) (forms : list str) :
  forall (i : nat) (filings : list Filing.t),
    filings = [] \/ len filings < count ->
    Exists (fun p => exists e, filing_at recent cik p = inl e)
      (take (Z.to_nat (Z.max 1 (count - len filings)))
         (positions_from form_type forms i)) ->
    exists e, filings_loop recent cik form_type count forms i filings = inl e.
Proof.
  induction forms as [|form_i rest IH]; intros i filings Hinv.
  - simpl. rewrite take_nil. by inversion 1.
  - rewrite filings_loop_step. simpl positions_from.
    destruct (decide (form_i = form_type)) as [_|_]; [|apply IH; exact Hinv].
    assert (Hpos : 0 <= len filings) by (unfold len; lia).
    destruct (Z.to_nat (Z.max 1 (count - len filings))) as [|n] eqn:En; [lia|].
    simpl. intros H.
    destruct (filing_at recent cik i) as [e|f] eqn:Ef; simpl; [by exists e|].
    inversion H as [? ? [e He]|? ? Hrest]; subst; [congruence|].
    assert (Hlen : len (filings ++ [f]) = len filings + 1).
    { unfold len. rewrite length_app. simpl. lia. }
    destruct (len (filings ++ [f]) >=? count) eqn:E.
    + assert (n = 0%nat) by lia. subst n. rewrite take_0 in Hrest.
      by inversion Hrest.
    + apply IH; [right; lia|].
      replace (Z.to_nat (Z.max 1 (count - len (filings ++ [f])))) with n by lia.
      exact Hrest.
Qed.

(** X14.  All or nothing: when the loop body raises at one of the first
    [max(1, count)] positions that hold [form_type] (a parallel array is too
    short there, or the key ['filingDate'] is missing), the result is the
    empty list, and the records built before that position are lost. *)
Theorem recent_filings_all_or_nothing (recent : recent_filings)
  (forms : list str) (ticker cik form_type : str) (count : Z) :
  form recent = Some forms ->
  Exists (fun p => exists e, filing_at recent cik p = inl e)
    (take (wanted count) (positions_from form_type forms 0)) ->
  get_recent_filings (ok_reply (Recent recent)) ticker cik form_type count = [].
Proof.
  intros Hf Hbad. unfold get_recent_filings, ok_reply.
  cbn [status_code json Z.eqb Pos.eqb negb]. unfold list_filings. rewrite Hf.
  destruct (accessionNumber recent) as [accs|]; [|reflexivity].
  destruct (filings_loop_incomplete recent cik form_type count forms 0 [])
    as [e ->]; [by left | | reflexivity].
  unfold len. simpl length. rewrite Z.sub_0_r. exact Hbad.
Qed.

Lemma recent_filings_all_or_nothing_witness :
  get_recent_filings
    (ok_reply (Recent {| form := Some [py "8-K"; py "10-Q"; py "8-K"];
                         accessionNumber := Some [py "0000320193-25-000001";
                                                  py "0000320193-25-000002"];
                         filingDate := Some [py "2025-01-03"; py "2025-01-02";
                                             py "2025-01-01"];
                         primaryDocument := Some [py "a.htm"; py "b.htm";
                                                  py "c.htm"] |}))
    (py "AAPL") (py "0000320193") (py "8-K") 5 = [].
Proof.
  apply (recent_filings_all_or_nothing _ [py "8-K"; py "10-Q"; py "8-K"]);
    [reflexivity|].
  right. left. exists IndexError. reflexivity.
Defined.

(** X15.  A result that is not empty comes from a reply with status 200
    whose recent-filings object has the key ['form']; its records stand, in
    rising order, for the first [max(1, count)] positions of the form array
    that hold exactly [form_type], one record for each. *)
Theorem recent_filings_positions (reply : option (response submissions))
  (ticker cik form_type : str) (count : Z) (f0 : Filing.t) (fs : list Filing.t) :
  get_recent_filings reply ticker cik form_type count = f0 :: fs ->
  exists recent forms ps,
    reply = ok_reply (Recent recent) /\ form recent = Some forms /\
    ps = take (wanted count) (positions_from form_type forms 0) /\
    StronglySorted lt ps /\
    Forall (fun p => forms !! p = Some form_type) ps /\
    Forall2 (fun p f => filing_at recent cik p = inr f) ps (f0 :: fs) /\
    length (f0 :: fs) = Nat.min (wanted count)
                          (length (positions_from form_type forms 0)).
Proof.
  intros H. apply recent_filings_window in H as (recent & forms & -> & Hf & H).
  exists recent, forms, (take (wanted count) (positions_from form_type forms 0)).
  split; [reflexivity|]. split; [exact Hf|]. split; [reflexivity|].
  assert (Hsub : forall p, p ∈ take (wanted count) (positions_from form_type forms 0)
                   -> p ∈ positions_from form_type forms 0).
  { intros p Hp. rewrite <- (take_drop (wanted count)). apply elem_of_app. by left. }
  split; [|split; [|split]].
  - pose proof (positions_from_sorted form_type forms 0) as Hs.
    rewrite <- (take_drop (wanted count)) in Hs.
    revert Hs. generalize (take (wanted count) (positions_from form_type forms 0)).
    intros l. induction l as [|x l IHl]; simpl; [constructor|].
    intros Hs. inversion Hs as [|? ? Hs' Hx]; subst.
    constructor; [by apply IHl|]. by apply Forall_app in Hx as [? _].
  - apply Forall_forall. intros p Hp. apply Hsub in Hp.
    apply positions_from_spec in Hp as [_ Hp]. by rewrite Nat.sub_0_r in Hp.
  - exact H.
  - apply Forall2_length in H. rewrite <- H. apply length_take.
Qed.

Lemma recent_filings_positions_witness :
  exists f1 f2 recent forms ps,
    ok_reply (two_filings (Some [py "a.htm"; []])) = ok_reply (Recent recent) /\
    form recent = Some forms /\
    ps = take (wanted 5) (positions_from (py "8-K") forms 0) /\
    StronglySorted lt ps /\
    Forall (fun p => forms !! p = Some (py "8-K")) ps /\
    Forall2 (fun p f => filing_at recent (py "0000320193") p = inr f) ps [f1; f2] /\
    length [f1; f2] = Nat.min (wanted 5)
                        (length (positions_from (py "8-K") forms 0)).
Proof.
  eexists _, _.
  apply (recent_filings_positions (ok_reply (two_filings (Some [py "a.htm"; []])))
           (py "AAPL") (py "0000320193") (py "8-K") 5).
  vm_compute. reflexivity.
Defined.

Lemma remove_dashes_no_dash (s : str) : chr 45 ∉ remove_dashes s.
Proof.
  unfold remove_dashes. intros H. apply list_elem_of_In, filter_In in H as [_ H].
  discriminate H.
Qed.

Lemma make_filing_urls (cik acc date doc : str) :
  let f := make_filing cik acc date doc in
  Filing.indexUrl f = archive_of cik f ++ Filing.accessionNumber f ++ py "-index.htm" /\
  (doc = [] /\ Filing.docUrl f = [] \/
   doc <> [] /\ Filing.docUrl f = archive_of cik f ++ doc).
Proof.
  cbv zeta. unfold make_filing, archive_of, archive_dir. simpl.
  split; [by rewrite <- !app_assoc|].
  destruct doc as [|c doc]; simpl; [by left|].
  right. split; [discriminate|]. by rewrite <- !app_assoc.
Qed.

Lemma recent_filings_member (reply : option (response submissions))
  (ticker cik form_type : str) (count : Z) (f : Filing.t) :
  f ∈ get_recent_filings reply ticker cik form_type count ->
  exists recent forms p,
    reply = ok_reply (Recent recent) /\
    form recent = Some forms /\ forms !! p = Some form_type /\
    filing_at recent cik p = inr f.
Proof.
  intros Hin.
  destruct (get_recent_filings reply ticker cik form_type count)
    as [|f0 fs] eqn:E; [by apply not_elem_of_nil in Hin|].
  apply recent_filings_window in E as (recent & forms & -> & Hforms & H).
  apply list_elem_of_lookup in Hin as [i Hi].
  destruct (Forall2_lookup_r _ _ _ _ _ H Hi) as (p & Hp & Hat).
  exists recent, forms, p. split; [reflexivity|]. split; [exact Hforms|].
  split; [|exact Hat].
  assert (Hin : p ∈ positions_from form_type forms 0).
  { apply list_elem_of_lookup. exists i.
    apply lookup_take_Some in Hp as [Hp _]. exact Hp. }
  apply positions_from_spec in Hin as [_ Hin].
  rewrite Nat.sub_0_r in Hin. exact Hin.
Qed.

(** X16.  Every record returned was built at a position [p] of the arrays
    that holds the wanted form type, from the accession number, the filing
    date and the primary-document entry at [p].  Its index page lies in the
    archive directory of the filing and is named by the accession number
    with its dashes, while the directory is named by the accession number
    without them; its document URL is empty exactly when the
    primary-document entry at [p] is empty (or the default), and lies in
    the same directory otherwise. *)
Theorem filing_urls (reply : option (response submissions))
  (ticker cik form_type : str) (count : Z) (f : Filing.t) :
  f ∈ get_recent_filings reply ticker cik form_type count ->
  Filing.indexUrl f =
    archive_of cik f ++ Filing.accessionNumber f ++ py "-index.htm" /\
  (chr 45 ∉ remove_dashes (Filing.accessionNumber f)) /\
  exists recent forms accs dates p doc,
    reply = ok_reply (Recent recent) /\
    form recent = Some forms /\ forms !! p = Some form_type /\
    filing_at recent cik p = inr f /\
    accessionNumber recent = Some accs /\
    accs !! p = Some (Filing.accessionNumber f) /\
    filingDate recent = Some dates /\
    dates !! p = Some (Filing.filingDate f) /\
    default [[]] (primaryDocument recent) !! p = Some doc /\
    (doc = [] /\ Filing.docUrl f = [] \/
     doc <> [] /\ Filing.docUrl f = archive_of cik f ++ doc).
Proof.
  intros (recent & forms & p & -> & Hforms & Hform & Hp)%recent_filings_member.
  pose proof Hp as Hat.
  apply filing_at_inr in Hp
    as (accs & dates & acc & date & doc & Haccs & Hacc & Hdates & Hdate
        & Hdoc & ->).
  destruct (make_filing_urls cik acc date doc) as [Hidx Hurl].
  split; [exact Hidx|]. split; [apply remove_dashes_no_dash|].
  exists recent, forms, accs, dates, p, doc. simpl. auto 12.
Qed.

Lemma filing_urls_witness :
  let reply := ok_reply (two_filings (Some [py "a.htm"; []])) in
  let f := make_filing (py "0000320193") (py "0000320193-25-000001")
             (py "2025-01-03") (py "a.htm") in
  let g := make_filing (py "0000320193") (py "0000320193-25-000002")
             (py "2025-01-02") [] in
  get_recent_filings reply (py "AAPL") (py "0000320193") (py "8-K") 5 = [f; g] /\
  Filing.indexUrl f =
    py "https://www.sec.gov/Archives/edgar/data/0000320193/000032019325000001/0000320193-25-000001-index.htm" /\
  Filing.docUrl f =
    py "https://www.sec.gov/Archives/edgar/data/0000320193/000032019325000001/a.htm" /\
  Filing.docUrl g = [] /\
  (Filing.indexUrl f =
     archive_of (py "0000320193") f ++ Filing.accessionNumber f
       ++ py "-index.htm" /\
   (chr 45 ∉ remove_dashes (Filing.accessionNumber f)) /\
   exists recent forms accs dates p doc,
     reply = ok_reply (Recent recent) /\
     form recent = Some forms /\ forms !! p = Some (py "8-K") /\
     filing_at recent (py "0000320193") p = inr f /\
     accessionNumber recent = Some accs /\
     accs !! p = Some (Filing.accessionNumber f) /\
     filingDate recent = Some dates /\
     dates !! p = Some (Filing.filingDate f) /\
     default [[]] (primaryDocument recent) !! p = Some doc /\
     (doc = [] /\ Filing.docUrl f = [] \/
      doc <> [] /\
      Filing.docUrl f = archive_of (py "0000320193") f ++ doc)).
Proof.
  cbv zeta. repeat (split; [vm_compute; reflexivity|]).
  apply (filing_urls (ok_reply (two_filings (Some [py "a.htm"; []])))
           (py "AAPL") (py "0000320193") (py "8-K") 5).
  vm_compute. left.
Defined.

(** ** The rows of a run *)

Lemma detected_context (text context keyword : str) :
  contains_product_info text = (true, context, keyword) ->
  keyword ∈ Config.PRODUCT_KEYWORDS /\ len context <= 300.
Proof.
  unfold contains_product_info, contains_product_info_with. intros H.
  apply scan_keywords_found in H as (Hk & Hin & ->). split; [exact Hk|].
  destruct (find_from_in keyword (lower text) 0 Hin) as (i & Hi & _).
  apply context_window_length. unfold find. lia.
Qed.

Section RowFacts.
Variable submissions_reply : str -> option (response submissions).
Variable document_reply : str -> option (response str).
Variable get_document_from_index : str -> option str.
Variable max_companies max_filings : Z.
Variable tickers_dict : gmap str str.

(** What the body of the filing loop puts into a row. *)
Lemma process_filing_row (ticker cik : str) (filing : Filing.t) (row : Row.t) :
  process_filing document_reply get_document_from_index ticker cik filing
    = ret (Some row) ->
  Row.Company row = ticker /\ Row.CIK row = cik /\
  Row.Filing_Date row = Filing.filingDate filing /\
  Row.Accession_Number row = Filing.accessionNumber filing /\
  Row.Document_URL row <> [] /\
  (Filing.docUrl filing <> [] -> Row.Document_URL row = Filing.docUrl filing) /\
  contains_product_info
    (get_filing_text (document_reply (Row.Document_URL row))) =
    (true, Row.Product_Context row, Row.Product_Keyword row) /\
  extract_product_name (Row.Product_Context row) (Row.Product_Keyword row) =
    ret (Row.Product_Name row).
Proof.
  unfold process_filing, ret.
  set (doc_url := if nonempty (Filing.docUrl filing) then _ else _).
  assert (Hdirect : Filing.docUrl filing <> [] ->
                    doc_url = Some (Filing.docUrl filing)).
  { subst doc_url. destruct (Filing.docUrl filing); [congruence | reflexivity]. }
  clearbody doc_url. destruct doc_url as [url|]; [|discriminate].
  destruct url as [|c url]; [discriminate|]. simpl negb. cbv iota.
  destruct (get_filing_text (document_reply (c :: url))) as [|t text] eqn:Et;
    [discriminate|]. simpl negb. cbv iota.
  destruct (contains_product_info (t :: text)) as [[[] context] keyword] eqn:Ec;
    [|discriminate].
  destruct (extract_product_name context keyword) as [e|name] eqn:En;
    [discriminate|].
  intros [= <-]. simpl. rewrite Et.
  repeat split; try reflexivity; try discriminate; [|exact Ec|exact En].
  intros H. specialize (Hdirect H). congruence.
Qed.


Lemma process_filings_rows (ticker cik : str) (filings : list Filing.t) :
  forall results rows : list Row.t,
    process_filings document_reply get_document_from_index ticker cik
      filings results = ret rows ->
    exists new,
      rows = results ++ new /\
      (length new <= length filings)%nat /\
      Forall (fun row => exists filing,
                filing ∈ filings /\
                process_filing document_reply get_document_from_index
                  ticker cik filing = ret (Some row)) new.
Proof.
  induction filings as [|f fs IH]; intros results rows; simpl.
  - intros [= <-]. exists []. rewrite app_nil_r.
    split; [reflexivity|]. split; [simpl; lia | constructor].
  - destruct (process_filing document_reply get_document_from_index
                ticker cik f) as [e|[row|]] eqn:Ef; simpl; [discriminate| |].
    + intros H. apply IH in H as (new & -> & Hlen & Hall).
      exists (row :: new). rewrite <- app_assoc. split; [reflexivity|].
      split; [simpl; lia|]. constructor.
      * exists f. split; [left | exact Ef].
      * eapply Forall_impl; [exact Hall|].
        intros r (f' & Hf' & Hr). exists f'. split; [by right | exact Hr].
    + intros H. apply IH in H as (new & -> & Hlen & Hall).
      exists new. split; [reflexivity|]. split; [lia|].
      eapply Forall_impl; [exact Hall|].
      intros r (f' & Hf' & Hr). exists f'. split; [by right | exact Hr].
Qed.


Lemma recent_filings_length (reply : option (response submissions))
  (ticker cik form_type : str) (count : Z) :
  (length (get_recent_filings reply ticker cik form_type count)
     <= wanted count)%nat.
Proof.
  destruct (get_recent_filings reply ticker cik form_type count)
    as [|f0 fs] eqn:E; [simpl; lia|].
  apply recent_filings_window in E as (recent & forms & _ & _ & H).
  apply Forall2_length in H. rewrite <- H, length_take. unfold wanted. lia.
Qed.

(** The rows of a loop that returns: those it started with, then rows of
    filings of companies it logged, no more than the limit for each. *)
Lemma companies_loop_rows (todo : list str) :
  forall (company_count : Z) (results : list Row.t)
    (logged : list (str * str)) (rows : list Row.t),
    let final := companies_loop submissions_reply document_reply
                   get_document_from_index max_companies max_filings
                   tickers_dict todo company_count results logged in
    outcome final = ret rows ->
    exists new done,
      rows = results ++ new /\
      processed final = logged ++ done /\
      (length new <= length done * wanted max_filings)%nat /\
      Forall (fun row => exists filing,
                tickers_dict !! Row.Company row = Some (Row.CIK row) /\
                (Row.Company row, Row.CIK row) ∈ done /\
                filing ∈ get_recent_filings
                           (submissions_reply (submissions_url (Row.CIK row)))
                           (Row.Company row) (Row.CIK row) (py "8-K")
                           max_filings /\
                process_filing document_reply get_document_from_index
                  (Row.Company row) (Row.CIK row) filing = ret (Some row))
        new.
Proof.
  induction todo as [|t rest IH]; intros company_count results logged rows.
  - simpl. intros [= <-]. exists [], []. rewrite !app_nil_r.
    split; [reflexivity|]. split; [reflexivity|].
    split; [simpl; lia | constructor].
  - cbv zeta. rewrite companies_loop_cons.
    destruct (company_count >=? max_companies).
    { simpl. intros [= <-]. exists [], []. rewrite !app_nil_r.
      split; [reflexivity|]. split; [reflexivity|].
      split; [simpl; lia | constructor]. }
    destruct (tickers_dict !! t) as [cik|] eqn:Et; [|apply IH].
    cbv zeta.
    set (filings := get_recent_filings (submissions_reply (submissions_url cik))
                      t cik (py "8-K") max_filings).
    pose proof (recent_filings_length
                  (submissions_reply (submissions_url cik)) t cik (py "8-K")
                  max_filings) as Hlen. fold filings in Hlen.
    assert (Hstep : forall new0,
      (length new0 <= wanted max_filings)%nat ->
      Forall (fun row => exists filing,
                filing ∈ filings /\
                process_filing document_reply get_document_from_index
                  t cik filing = ret (Some row)) new0 ->
      outcome (companies_loop submissions_reply document_reply
                 get_document_from_index max_companies max_filings
                 tickers_dict rest (company_count + 1) (results ++ new0)
                 (logged ++ [(t, cik)])) = ret rows ->
      exists new done,
        rows = results ++ new /\
        processed (companies_loop submissions_reply document_reply
                     get_document_from_index max_companies max_filings
                     tickers_dict rest (company_count + 1) (results ++ new0)
                     (logged ++ [(t, cik)])) = logged ++ done /\
        (length new <= length done * wanted max_filings)%nat /\
        Forall (fun row => exists filing,
                  tickers_dict !! Row.Company row = Some (Row.CIK row) /\
                  (Row.Company row, Row.CIK row) ∈ done /\
                  filing ∈ get_recent_filings
                             (submissions_reply (submissions_url (Row.CIK row)))
                             (Row.Company row) (Row.CIK row) (py "8-K")
                             max_filings /\
                  process_filing document_reply get_document_from_index
                    (Row.Company row) (Row.CIK row) filing = ret (Some row))
          new).
    { intros new0 Hn0 Hall0 H.
      apply IH in H as (new & done & -> & Hp & Hn & Hall).
      exists (new0 ++ new), ((t, cik) :: done).
      split; [by rewrite <- app_assoc|].
      split; [rewrite Hp, <- app_assoc; reflexivity|].
      split; [rewrite length_app; simpl; lia|].
      apply Forall_app. split.
      - eapply Forall_impl; [exact Hall0|].
        intros row (filing & Hf & Hr).
        destruct (process_filing_row t cik filing row Hr) as (<- & <- & _).
        exists filing. split; [exact Et|]. split; [left|].
        split; [exact Hf | exact Hr].
      - eapply Forall_impl; [exact Hall|].
        intros row (filing & Hd & Hin & Hf & Hr).
        exists filing. split; [exact Hd|]. split; [by right|].
        split; [exact Hf | exact Hr]. }
    destruct (negb (nonempty filings)).
    { pose proof (Hstep [] ltac:(simpl; lia) ltac:(constructor)) as Hs.
      rewrite app_nil_r in Hs. exact Hs. }
    destruct (process_filings document_reply get_document_from_index t cik
                filings results) as [e|results'] eqn:Ep; [discriminate|].
    apply process_filings_rows in Ep as (new0 & -> & Hn0 & Hall0).
    apply Hstep; [lia | exact Hall0].
Qed.

End RowFacts.

(** X17.  Every row a run returns belongs to a company that is in the
    ticker map and was processed, and to one of the filings listed for it:
    it carries that filing's date and accession number, a document URL that
    is not empty, one of the configured keywords, a context of at most 300
    characters, and as name the name the extractor returned for that
    context and keyword. *)
Theorem rows_come_from_processed_filings
  (submissions_reply : str -> option (response submissions))
  (document_reply : str -> option (response str))
  (get_document_from_index : str -> option str)
  (max_companies max_filings : Z) (candidates : list str)
  (tickers_dict : gmap str str) (rows : list Row.t) (row : Row.t) :
  let r := process_companies_from submissions_reply document_reply
             get_document_from_index max_companies max_filings
             candidates tickers_dict in
  outcome r = ret rows ->
  row ∈ rows ->
  tickers_dict !! Row.Company row = Some (Row.CIK row) /\
  (Row.Company row, Row.CIK row) ∈ processed r /\
  (exists filing,
     filing ∈ get_recent_filings
                (submissions_reply (submissions_url (Row.CIK row)))
                (Row.Company row) (Row.CIK row) (py "8-K") max_filings /\
     Row.Filing_Date row = Filing.filingDate filing /\
     Row.Accession_Number row = Filing.accessionNumber filing) /\
  Row.Document_URL row <> [] /\
  Row.Product_Keyword row ∈ Config.PRODUCT_KEYWORDS /\
  len (Row.Product_Context row) <= 300 /\
  extract_product_name (Row.Product_Context row) (Row.Product_Keyword row) =
    ret (Row.Product_Name row).
Proof.
  cbv zeta. unfold process_companies_from.
  destruct (decide (tickers_dict = ∅)) as [_|_]; simpl.
  { intros [= <-] H. by apply not_elem_of_nil in H. }
  intros Hout Hrow.
  destruct (companies_loop_rows submissions_reply document_reply
              get_document_from_index max_companies max_filings tickers_dict
              candidates 0 [] [] rows Hout)
    as (new & done & -> & Hp & _ & Hall).
  simpl in Hrow, Hp. rewrite Hp.
  rewrite Forall_forall in Hall.
  destruct (Hall row Hrow) as (filing & Hd & Hin & Hf & Hr).
  apply process_filing_row in Hr
    as (_ & _ & Hdate & Hacc & Hurl & _ & Hdet & Hname).
  apply detected_context in Hdet as [Hk Hc].
  split; [exact Hd|]. split; [exact Hin|]. split; [by exists filing|]. auto.
Qed.

Lemma rows_come_from_processed_filings_witness :
  (exists rest, outcome sample_run = ret (sample_row :: rest)) /\
  (Row.Company sample_row, Row.CIK sample_row) ∈ processed sample_run /\
  Row.Product_Keyword sample_row ∈ Config.PRODUCT_KEYWORDS /\
  extract_product_name (Row.Product_Context sample_row)
    (Row.Product_Keyword sample_row) = ret (Row.Product_Name sample_row).
Proof.
  assert (H : exists rest, outcome sample_run = ret (sample_row :: rest)).
  { eexists. vm_compute. reflexivity. }
  split; [exact H|]. destruct H as [rest H].
  destruct (rows_come_from_processed_filings two_filings_reply sample_page
              offline Config.MAX_COMPANIES Config.MAX_FILINGS_PER_COMPANY
              companies two_tickers (sample_row :: rest) sample_row H)
    as (_ & Hp & _ & _ & Hk & _ & Hn); [left|].
  split; [exact Hp|]. split; [exact Hk | exact Hn].
Defined.

Lemma processed_length
  (submissions_reply : str -> option (response submissions))
  (document_reply : str -> option (response str))
  (get_document_from_index : str -> option str)
  (max_companies max_filings : Z) (candidates : list str)
  (tickers_dict : gmap str str) :
  len (processed (process_companies_from submissions_reply document_reply
                    get_document_from_index max_companies max_filings
                    candidates tickers_dict)) <= Z.max 0 max_companies.
Proof.
  unfold process_companies_from.
  destruct (decide (tickers_dict = ∅)) as [_|_]; [unfold len; simpl; lia|].
  destruct (companies_loop_processed submissions_reply document_reply
              get_document_from_index max_companies max_filings tickers_dict
              candidates 0 [] []) as (n & Hn & ->).
  simpl. unfold len. rewrite length_take. lia.
Qed.

(** X18.  A run that returns yields at most [max(1, max_filings)] rows for
    each company it processed; with the configured limits, at most 25
    rows. *)
Theorem rows_bounded
  (submissions_reply : str -> option (response submissions))
  (document_reply : str -> option (response str))
  (get_document_from_index : str -> option str)
  (tickers_dict : gmap str str) :
  (forall (max_companies max_filings : Z) (candidates : list str)
     (rows : list Row.t),
     let r := process_companies_from submissions_reply document_reply
                get_document_from_index max_companies max_filings
                candidates tickers_dict in
     outcome r = ret rows ->
     len rows <= len (processed r) * Z.max 1 max_filings) /\
  (forall rows : list Row.t,
     outcome (process_companies submissions_reply document_reply
                get_document_from_index tickers_dict) = ret rows ->
     len rows <= 25).
Proof.
  assert (G : forall (max_companies max_filings : Z) (candidates : list str)
     (rows : list Row.t),
     let r := process_companies_from submissions_reply document_reply
                get_document_from_index max_companies max_filings
                candidates tickers_dict in
     outcome r = ret rows ->
     len rows <= len (processed r) * Z.max 1 max_filings).
  { intros max_companies max_filings candidates rows. cbv zeta.
    unfold process_companies_from.
    destruct (decide (tickers_dict = ∅)) as [_|_].
    { simpl. intros [= <-]. unfold len. simpl. lia. }
    intros Hout.
    destruct (companies_loop_rows submissions_reply document_reply
                get_document_from_index max_companies max_filings tickers_dict
                candidates 0 [] [] rows Hout)
      as (new & done & -> & Hp & Hn & _).
    rewrite Hp. simpl. unfold len, wanted in *. nia. }
  split; [exact G|]. intros rows Hout.
  pose proof (G Config.MAX_COMPANIES Config.MAX_FILINGS_PER_COMPANY companies
                rows Hout) as H.
  pose proof (processed_length submissions_reply document_reply
                get_document_from_index Config.MAX_COMPANIES
                Config.MAX_FILINGS_PER_COMPANY companies tickers_dict) as Hp.
  cbv zeta in H.
  change (Z.max 1 Config.MAX_FILINGS_PER_COMPANY) with 5 in H.
  change (Z.max 0 Config.MAX_COMPANIES) with 5 in Hp. lia.
Qed.

Lemma rows_bounded_witness :
  exists rows : list Row.t,
    outcome sample_run = ret rows /\ len rows = 4 /\ len rows <= 25.
Proof.
  eexists. split; [vm_compute; reflexivity|]. split; [vm_compute; reflexivity|].
  apply (proj2 (rows_bounded two_filings_reply sample_page offline two_tickers)).
  vm_compute. reflexivity.
Defined.

Lemma process_filing_direct (document_reply : str -> option (response str))
  (g1 g2 : str -> option str) (ticker cik : str) (filing : Filing.t) :
  Filing.docUrl filing <> [] ->
  process_filing document_reply g1 ticker cik filing =
  process_filing document_reply g2 ticker cik filing.
Proof.
  intros H. unfold process_filing.
  destruct (Filing.docUrl filing); [congruence | reflexivity].
Qed.

Lemma process_filings_direct (document_reply : str -> option (response str))
  (g1 g2 : str -> option str) (ticker cik : str) (filings : list Filing.t) :
  Forall (fun f => Filing.docUrl f <> []) filings ->
  forall results : list Row.t,
    process_filings document_reply g1 ticker cik filings results =
    process_filings document_reply g2 ticker cik filings results.
Proof.
  induction 1 as [|f fs Hf _ IH]; intros results; simpl; [reflexivity|].
  rewrite (process_filing_direct document_reply g1 g2 ticker cik f Hf).
  destruct (process_filing document_reply g2 ticker cik f) as [e|row];
    simpl; [reflexivity | apply IH].
Qed.

(** X19.  The index page of a filing is read only when the filing list
    gave no document URL for it: when every listed filing of the companies
    in the map has one, the run, be it the rows returned or the exception
    raised, does not depend on what [get_document_from_index] would
    return. *)
Theorem direct_urls_skip_index_pages
  (submissions_reply : str -> option (response submissions))
  (document_reply : str -> option (response str))
  (g1 g2 : str -> option str)
  (max_companies max_filings : Z) (candidates : list str)
  (tickers_dict : gmap str str) :
  (forall t cik f,
     tickers_dict !! t = Some cik ->
     f ∈ get_recent_filings (submissions_reply (submissions_url cik))
           t cik (py "8-K") max_filings ->
     Filing.docUrl f <> []) ->
  process_companies_from submissions_reply document_reply g1
    max_companies max_filings candidates tickers_dict =
  process_companies_from submissions_reply document_reply g2
    max_companies max_filings candidates tickers_dict.
Proof.
  intros H. unfold process_companies_from.
  destruct (decide (tickers_dict = ∅)) as [_|_]; [reflexivity|].
  generalize (@nil (str * str)). generalize (@nil Row.t). generalize 0.
  induction candidates as [|t rest IH]; intros c results logged;
    [reflexivity|].
  rewrite !companies_loop_cons.
  destruct (c >=? max_companies); [reflexivity|].
  destruct (tickers_dict !! t) as [cik|] eqn:Et; [|apply IH].
  cbv zeta.
  rewrite (process_filings_direct document_reply g1 g2 t cik
             (get_recent_filings (submissions_reply (submissions_url cik))
                t cik (py "8-K") max_filings)).
  - destruct (negb (nonempty _)); [apply IH|].
    destruct (process_filings _ _ _ _ _ _) as [e|results'];
      [reflexivity | apply IH].
  - apply Forall_forall. intros f Hf. exact (H t cik f Et Hf).
Qed.

Lemma direct_urls_skip_index_pages_witness :
  process_companies_from two_filings_reply sample_page offline
    Config.MAX_COMPANIES Config.MAX_FILINGS_PER_COMPANY companies two_tickers =
  process_companies_from two_filings_reply sample_page fixed_document
    Config.MAX_COMPANIES Config.MAX_FILINGS_PER_COMPANY companies two_tickers.
Proof.
  apply (direct_urls_skip_index_pages two_filings_reply sample_page
           offline fixed_document).
  intros t cik f _ Hf. apply list_elem_of_In in Hf.
  vm_compute in Hf. destruct Hf as [<-|[<-|[]]]; vm_compute; discriminate.
Defined.



(** ** The document locator *)

Lemma rows_loop_cons (cells : list Cell.t) (rest : list (list Cell.t)) :
  DocumentLocator.rows_loop (cells :: rest) =
  match DocumentLocator.row_document cells with
  | Some url => Some url
  | None => DocumentLocator.rows_loop rest
  end.
Proof.
  unfold DocumentLocator.row_document.
  destruct cells as [|c0 [|c1 [|c2 cells]]]; try reflexivity.
  assert (E : (len (c0 :: c1 :: c2 :: cells) >=? 3) = true).
  { apply Z.geb_le. unfold len. simpl length. lia. }
  cbn [DocumentLocator.rows_loop]. rewrite E. simpl lookup. cbv beta iota.
  destruct (DocumentLocator.is_8k (strip (Cell.text c1))); [|reflexivity].
  destruct (Cell.a_href c2) as [[href|]|]; try reflexivity.
  destruct (nonempty href); reflexivity.
Qed.

Lemma rows_loop_first (rows : list (list Cell.t)) :
  DocumentLocator.rows_loop rows =
  head (omap DocumentLocator.row_document rows).
Proof.
  induction rows as [|cells rest IH]; [reflexivity|].
  rewrite rows_loop_cons.
  change (omap DocumentLocator.row_document (cells :: rest))
    with (match DocumentLocator.row_document cells with
          | Some url => url :: omap DocumentLocator.row_document rest
          | None => omap DocumentLocator.row_document rest
          end).
  destruct (DocumentLocator.row_document cells); [reflexivity | exact IH].
Qed.

Lemma absolute_not_relative (href : str) :
  nonempty href = true ->
  DocumentLocator.absolute href <> [] /\
  startswith (py "/") (DocumentLocator.absolute href) = false.
Proof.
  intros Hne. unfold DocumentLocator.absolute.
  destruct (startswith (py "/") href) eqn:E.
  - split; [discriminate | reflexivity].
  - split; [|exact E]. destruct href; [discriminate Hne | discriminate].
Qed.

Lemma row_document_url (cells : list Cell.t) (url : str) :
  DocumentLocator.row_document cells = Some url ->
  url <> [] /\ startswith (py "/") url = false.
Proof.
  unfold DocumentLocator.row_document.
  destruct cells as [|c0 [|c1 [|c2 cells]]]; try discriminate.
  destruct (DocumentLocator.is_8k _); [|discriminate].
  destruct (Cell.a_href c2) as [[href|]|]; try discriminate.
  destruct (nonempty href) eqn:E; [|discriminate].
  intros [= <-]. by apply absolute_not_relative.
Qed.

(** X20.  The locator returns the document of the first row of the table
    that gives one: rows with fewer than three cells, rows whose second
    cell does not describe the form, and rows whose third cell has no link
    or a link without target are passed over.  It returns nothing when the
    request fails, the status is not 200, the page has no such table, or no
    row gives a document. *)
Theorem document_is_first_row
  (reply : option (response (option (list (list Cell.t))))) :
  DocumentLocator.get_document_from_index reply =
  match reply with
  | Some {| status_code := 200; json := Some (Some rows) |} =>
      head (omap DocumentLocator.row_document rows)
  | _ => None
  end.
Proof.
  unfold DocumentLocator.get_document_from_index.
  destruct reply as [[code body]|]; [|reflexivity]. simpl.
  destruct (code =? 200) eqn:E.
  - apply Z.eqb_eq in E. subst code. simpl.
    destruct body as [[rows|]|]; try reflexivity. apply rows_loop_first.
  - simpl. destruct code as [|q|q]; try reflexivity.
    do 8 (destruct q as [q|q|]; try reflexivity); discriminate E.
Qed.

(** X21.  A URL the locator returns is never empty and never starts with
    a slash: a site-relative target is made absolute, any other target is
    returned as it is. *)
Theorem located_document_is_absolute
  (reply : option (response (option (list (list Cell.t))))) (url : str) :
  DocumentLocator.get_document_from_index reply = Some url ->
  url <> [] /\ startswith (py "/") url = false.
Proof.
  unfold DocumentLocator.get_document_from_index.
  destruct reply as [[code body]|]; [|discriminate]. simpl.
  destruct (negb (code =? 200)); [discriminate|].
  destruct body as [[rows|]|]; try discriminate.
  rewrite rows_loop_first. intros H.
  destruct (omap DocumentLocator.row_document rows) as [|u us] eqn:E;
    [discriminate|].
  injection H as ->.
  assert (Hin : url ∈ omap DocumentLocator.row_document rows)
    by (rewrite E; left).
  apply list_elem_of_omap in Hin as (cells & _ & Hrow).
  by apply row_document_url in Hrow.
Qed.

Lemma located_document_is_absolute_witness :
  DocumentLocator.get_document_from_index
    (ok_reply (Some DocumentLocator.sample_table)) =
    Some (py "https://www.sec.gov/Archives/edgar/data/320193/b.htm") /\
  py "https://www.sec.gov/Archives/edgar/data/320193/b.htm" <> [] /\
  startswith (py "/")
    (py "https://www.sec.gov/Archives/edgar/data/320193/b.htm") = false.
Proof.
  assert (H : DocumentLocator.get_document_from_index
                (ok_reply (Some DocumentLocator.sample_table)) =
              Some (py "https://www.sec.gov/Archives/edgar/data/320193/b.htm"))
    by (vm_compute; reflexivity).
  split; [exact H|].
  exact (located_document_is_absolute _ _ H).
Defined.

(** ** What cleaning keeps *)

Lemma visible_app (a b : str) : visible (a ++ b) = visible a ++ visible b.
Proof. unfold visible. apply List.filter_app. Qed.

Lemma visible_spaces (sp : str) :
  Forall (fun c => is_space c = true) sp -> visible sp = [].
Proof.
  induction 1 as [|c sp Hc _ IH]; [reflexivity|].
  unfold visible in *. simpl. rewrite Hc. exact IH.
Qed.

Lemma visible_nil_spaces (s : str) :
  visible s = [] -> Forall (fun c => is_space c = true) s.
Proof.
  induction s as [|c s IH]; [constructor|].
  unfold visible in *. simpl. destruct (is_space c) eqn:E; simpl; [|discriminate].
  intros H. constructor; [exact E | by apply IH].
Qed.

Lemma lstrip_spaces (s : str) :
  exists sp, s = sp ++ lstrip s /\ Forall (fun c => is_space c = true) sp.
Proof.
  induction s as [|c s (sp & IH & Hsp)]; simpl.
  - exists []. split; [reflexivity | constructor].
  - destruct (is_space c) eqn:E.
    + exists (c :: sp). split; [simpl; by rewrite <- IH | by constructor].
    + exists []. split; [reflexivity | constructor].
Qed.

Lemma visible_lstrip (s : str) : visible (lstrip s) = visible s.
Proof.
  destruct (lstrip_spaces s) as (sp & H & Hsp).
  rewrite H at 2. by rewrite visible_app, (visible_spaces sp Hsp).
Qed.

Lemma visible_rev (s : str) : visible (rev s) = rev (visible s).
Proof.
  induction s as [|c s IH]; [reflexivity|].
  simpl rev. rewrite visible_app, IH. unfold visible. simpl.
  destruct (is_space c); simpl; [by rewrite app_nil_r | reflexivity].
Qed.

Lemma visible_strip (s : str) : visible (strip s) = visible s.
Proof.
  unfold strip, rstrip.
  rewrite visible_rev, visible_lstrip, visible_rev, rev_involutive.
  apply visible_lstrip.
Qed.

Lemma linebreak_is_space (c : ascii) : is_linebreak c = true -> is_space c = true.
Proof. by_cases_on_char c. Qed.

Lemma visible_cons_space (c : ascii) (s : str) :
  is_space c = true -> visible (c :: s) = visible s.
Proof. intros H. unfold visible. simpl. by rewrite H. Qed.

Lemma visible_cons (c : ascii) (s : str) :
  visible (c :: s) = if negb (is_space c) then c :: visible s else visible s.
Proof. reflexivity. Qed.

Lemma visible_splitlines (s : str) : visible (concat (splitlines s)) = visible s.
Proof.
  induction s as [| c | c d s IHs IHd] using str_ind2.
  - reflexivity.
  - cbn [splitlines]. destruct (is_linebreak c) eqn:E.
    + symmetry. apply visible_spaces.
      constructor; [by apply linebreak_is_space | constructor].
    + reflexivity.
  - rewrite splitlines_cons2. destruct (is_linebreak c) eqn:E.
    + rewrite (visible_cons_space c _ (linebreak_is_space c E)).
      change (concat ([] :: ?l)) with (concat l).
      destruct (eqc c (chr 13) && eqc d (chr 10)) eqn:E2; [|exact IHd].
      apply andb_true_iff in E2 as [_ Hd]. apply eqc_true in Hd. subst d.
      rewrite (visible_cons_space (chr 10) s) by reflexivity. exact IHs.
    + assert (H : concat
                    match splitlines (d :: s) with
                    | [] => [[c]]
                    | l :: ls => (c :: l) :: ls
                    end = c :: concat (splitlines (d :: s))).
      { destruct (splitlines (d :: s)); reflexivity. }
      rewrite H, (visible_cons c (concat _)), (visible_cons c (d :: s)), IHd.
      reflexivity.
Qed.

Lemma visible_split2 (s : str) : visible (concat (split2 s)) = visible s.
Proof.
  induction s as [| c | c d s IHs IHd] using str_ind2.
  - reflexivity.
  - reflexivity.
  - rewrite split2_cons2. destruct (eqc c space && eqc d space) eqn:E.
    + apply andb_true_iff in E as [Hc Hd].
      apply eqc_true in Hc, Hd. subst c d.
      rewrite !(visible_cons_space space) by reflexivity. exact IHs.
    + assert (H : concat
                    match split2 (d :: s) with
                    | [] => [[c]]
                    | f :: fs => (c :: f) :: fs
                    end = c :: concat (split2 (d :: s))).
      { destruct (split2 (d :: s)); reflexivity. }
      rewrite H, (visible_cons c (concat _)), (visible_cons c (d :: s)), IHd.
      reflexivity.
Qed.

Lemma visible_concat_map (f : str -> str) (ls : list str) :
  (forall l, visible (f l) = visible l) ->
  visible (concat (map f ls)) = visible (concat ls).
Proof.
  intros Hf. induction ls as [|l ls IH]; [reflexivity|].
  simpl. by rewrite !visible_app, Hf, IH.
Qed.

Lemma visible_flat_map_split2 (ls : list str) :
  visible (concat (flat_map split2 ls)) = visible (concat ls).
Proof.
  induction ls as [|l ls IH]; [reflexivity|].
  simpl. by rewrite concat_app, !visible_app, visible_split2, IH.
Qed.

Lemma concat_filter_nonempty (ls : list str) :
  concat (List.filter nonempty ls) = concat ls.
Proof.
  induction ls as [|l ls IH]; [reflexivity|].
  simpl. destruct l; simpl; [exact IH | by rewrite IH].
Qed.

Lemma visible_join_lines (cs : list str) :
  visible (join_lines cs) = visible (concat cs).
Proof.
  induction cs as [|c cs IH]; [reflexivity|].
  destruct cs as [|c' cs].
  - simpl. by rewrite app_nil_r.
  - change (join_lines (c :: c' :: cs))
      with (c ++ newline :: join_lines (c' :: cs)).
    change (concat (c :: c' :: cs)) with (c ++ concat (c' :: cs)).
    rewrite !visible_app, (visible_cons_space newline) by reflexivity.
    by rewrite IH.
Qed.

Lemma clean_text_keeps_visible_aux (text : str) :
  visible (clean_text text) = visible text.
Proof.
  unfold clean_text.
  rewrite visible_join_lines, concat_filter_nonempty.
  rewrite (visible_concat_map strip _ visible_strip).
  rewrite visible_flat_map_split2.
  rewrite (visible_concat_map strip _ visible_strip).
  apply visible_splitlines.
Qed.

Lemma join_lines_head (c : str) (cs : list str) (x : ascii) (c' : str) :
  c = x :: c' -> exists rest, join_lines (c :: cs) = x :: rest.
Proof.
  intros ->. destruct cs as [|d cs].
  - exists c'. reflexivity.
  - eexists. reflexivity.
Qed.

Lemma clean_text_empty (text : str) :
  clean_text text = [] <-> Forall (fun c => is_space c = true) text.
Proof.
  split.
  - intros H. apply visible_nil_spaces.
    by rewrite <- clean_text_keeps_visible_aux, H.
  - intros Hsp.
    assert (Hv : visible (clean_text text) = []).
    { rewrite clean_text_keeps_visible_aux. by apply visible_spaces. }
    change (clean_text text) with (join_lines (chunks_of text)) in *.
    pose proof (chunks_of_clean text) as Hc.
    destruct (chunks_of text) as [|c cs]; [reflexivity|].
    inversion Hc as [|? ? (Hne & _ & _ & Ht & _) _]; subst.
    destruct c as [|x c']; [discriminate|].
    apply lstrip_fixed in Ht as [Ht|(x' & t' & [= <- <-] & Hx)]; [discriminate|].
    destruct (join_lines_head (x :: c') cs x c' eq_refl) as [rest E].
    rewrite E in Hv. unfold visible in Hv. simpl in Hv. rewrite Hx in Hv.
    discriminate.
Qed.

(** X22.  The text returned is empty exactly when there is no page text
    (the request failed, the status is not 200, or the page could not be
    read) or the page text is white space only. *)
Theorem filing_text_empty (reply : option (response str)) :
  get_filing_text reply = [] <->
  (forall text, reply = ok_reply text ->
     Forall (fun c => is_space c = true) text).
Proof.
  unfold get_filing_text, ok_reply.
  destruct reply as [[code body]|]; simpl; [|split; [intros _ ? [=] | reflexivity]].
  destruct (code =? 200) eqn:E; simpl.
  - apply Z.eqb_eq in E. subst code. destruct body as [text|].
    + rewrite clean_text_empty. split.
      * intros H ? [= <-]. exact H.
      * intros H. by apply H.
    + split; [intros _ ? [=] | reflexivity].
  - split; [|reflexivity]. intros _ text [= -> _].
    rewrite Z.eqb_refl in E. discriminate.
Qed.

Lemma has_double_space_sep (x : ascii) (a b : str) :
  eqc x space = false ->
  has_double_space a = false -> has_double_space b = false ->
  has_double_space (a ++ x :: b) = false.
Proof.
  intros Hx Ha Hb. induction a as [|c a IH].
  - simpl. destruct b; [reflexivity|]. rewrite Hx. exact Hb.
  - destruct a as [|d a].
    + change (has_double_space ([c] ++ x :: b))
        with ((eqc c space && eqc x space) || has_double_space ([] ++ x :: b)).
      rewrite Hx, andb_false_r. apply IH. reflexivity.
    + change (has_double_space ((c :: d :: a) ++ x :: b))
        with ((eqc c space && eqc d space)
              || has_double_space ((d :: a) ++ x :: b)).
      change (has_double_space (c :: d :: a))
        with ((eqc c space && eqc d space) || has_double_space (d :: a)) in Ha.
      apply orb_false_iff in Ha as [-> Ha]. apply IH. exact Ha.
Qed.

Lemma join_lines_no_double_space (cs : list str) :
  Forall clean_chunk cs -> has_double_space (join_lines cs) = false.
Proof.
  induction 1 as [|c cs (_ & _ & Hc & _) Hcs IH]; [reflexivity|].
  destruct cs as [|c' cs]; [exact Hc|].
  change (join_lines (c :: c' :: cs))
    with (c ++ newline :: join_lines (c' :: cs)).
  apply has_double_space_sep; [reflexivity | exact Hc | exact IH].
Qed.

(** X23.  Whatever the reply, the text returned has no empty line, no line
    that starts or ends with white space, no line boundary other than the
    single newline between two lines, and nowhere two spaces in a row. *)
Theorem filing_text_is_clean (reply : option (response str)) :
  Forall clean_chunk (splitlines (get_filing_text reply)) /\
  join_lines (splitlines (get_filing_text reply)) = get_filing_text reply /\
  has_double_space (get_filing_text reply) = false.
Proof.
  assert (Hnil : Forall clean_chunk (splitlines []) /\
                 join_lines (splitlines []) = [] /\
                 has_double_space [] = false).
  { split; [constructor|]. split; reflexivity. }
  unfold get_filing_text. destruct reply as [[code body]|]; [|exact Hnil].
  simpl. destruct (negb (code =? 200)); [exact Hnil|].
  destruct body as [text|]; [|exact Hnil].
  change (clean_text text) with (join_lines (chunks_of text)).
  pose proof (chunks_of_clean text) as Hc.
  rewrite (splitlines_join_lines _ Hc).
  split; [exact Hc|]. split; [reflexivity|].
  by apply join_lines_no_double_space.
Qed.

Example ragged_text_cleaned :
  get_filing_text (ok_reply ragged_text) =
    py "Item 8.01" ++ [newline] ++ py "Other Events" ++ [newline]
      ++ py "Apple" ++ [newline] ++ py "today".
Proof. vm_compute. reflexivity. Qed.

(** ** Words *)

Lemma words_space (c : ascii) (s : str) :
  is_space c = true -> words (c :: s) = words s.
Proof. intros H. simpl. by rewrite H. Qed.

Lemma words_start (c : ascii) (s : str) :
  is_space c = false -> exists w ws, words (c :: s) = (c :: w) :: ws.
Proof.
  revert c. induction s as [|d s IH]; intros c Hc; simpl; rewrite Hc.
  - by exists [], [].
  - destruct (is_space d) eqn:Hd.
    + by eexists [], _.
    + destruct (IH d Hd) as (w & ws & E). simpl in E. rewrite Hd in E.
      rewrite E. by eexists _, _.
Qed.

Lemma words_cons (c : ascii) (s : str) :
  is_space c = false ->
  words (c :: s) =
  match s with
  | [] => [[c]]
  | d :: _ => if is_space d then [c] :: words s else push c (words s)
  end.
Proof. intros Hc. simpl. rewrite Hc. destruct s; reflexivity. Qed.

Lemma push_app (c : ascii) (w : str) (ws ws' : list str) :
  push c ((w :: ws) ++ ws') = push c (w :: ws) ++ ws'.
Proof. reflexivity. Qed.

(** A white-space character between two texts separates their words. *)
Lemma words_sep (x : ascii) (a b : str) :
  is_space x = true -> words (a ++ x :: b) = words a ++ words b.
Proof.
  intros Hx. induction a as [|c a IH].
  - simpl. by rewrite Hx.
  - change ((c :: a) ++ x :: b) with (c :: (a ++ x :: b)).
    destruct (is_space c) eqn:Hc.
    { by rewrite !(words_space c) by exact Hc. }
    destruct a as [|d a].
    + change ([] ++ x :: b) with (x :: b) in *.
      rewrite (words_cons c (x :: b) Hc), Hx, (words_space x b Hx),
        (words_cons c [] Hc).
      reflexivity.
    + change ((d :: a) ++ x :: b) with (d :: (a ++ x :: b)) in *.
      rewrite (words_cons c (d :: (a ++ x :: b)) Hc),
        (words_cons c (d :: a) Hc), IH.
      destruct (is_space d) eqn:Hd; [reflexivity|].
      destruct (words_start d a Hd) as (w & ws & ->). reflexivity.
Qed.

Lemma words_app_nil (a : str) : words (a ++ []) = words a.
Proof. by rewrite app_nil_r. Qed.

Lemma words_spaces (sp : str) :
  Forall (fun c => is_space c = true) sp -> words sp = [].
Proof.
  induction 1 as [|c sp Hc _ IH]; [reflexivity|]. by rewrite words_space.
Qed.

Lemma words_lead (sp s : str) :
  Forall (fun c => is_space c = true) sp -> words (sp ++ s) = words s.
Proof.
  induction 1 as [|c sp Hc _ IH]; [reflexivity|].
  simpl app. by rewrite words_space.
Qed.

Lemma words_trail (s sp : str) :
  Forall (fun c => is_space c = true) sp -> words (s ++ sp) = words s.
Proof.
  intros H. destruct H as [|x sp Hx Hsp]; [apply words_app_nil|].
  rewrite (words_sep x s sp Hx), (words_spaces sp Hsp). apply app_nil_r.
Qed.

Lemma rstrip_spaces (s : str) :
  exists sp, s = rstrip s ++ sp /\ Forall (fun c => is_space c = true) sp.
Proof.
  unfold rstrip. destruct (lstrip_spaces (rev s)) as (sp & H & Hsp).
  exists (rev sp). split.
  - rewrite <- rev_app_distr, <- H, rev_involutive. reflexivity.
  - apply Forall_forall. intros c Hc. rewrite Forall_forall in Hsp.
    apply Hsp. apply list_elem_of_In. apply list_elem_of_In in Hc.
    by apply in_rev.
Qed.

Lemma words_strip (s : str) : words (strip s) = words s.
Proof.
  unfold strip.
  destruct (rstrip_spaces (lstrip s)) as (sp' & H' & Hsp').
  destruct (lstrip_spaces s) as (sp & H & Hsp).
  rewrite H at 2. rewrite (words_lead sp _ Hsp).
  rewrite H' at 2. by rewrite (words_trail _ sp' Hsp').
Qed.

(** The first line of a text that is not empty: empty when the text starts
    with a line boundary, and starting where the text starts otherwise. *)
Lemma splitlines_first (d : ascii) (s : str) :
  exists l ls, splitlines (d :: s) = l :: ls /\
    (is_linebreak d = true /\ l = [] \/
     is_linebreak d = false /\ exists l', l = d :: l').
Proof.
  simpl. destruct (is_linebreak d) eqn:E.
  - eexists [], _. split; [reflexivity|]. by left.
  - destruct (splitlines s) as [|l ls].
    + exists [d], []. split; [reflexivity|]. right. by eauto.
    + exists (d :: l), ls. split; [reflexivity|]. right. by eauto.
Qed.

Lemma words_splitlines (s : str) : flat_map words (splitlines s) = words s.
Proof.
  induction s as [| c | c d s IHs IHd] using str_ind2.
  - reflexivity.
  - cbn [splitlines]. destruct (is_linebreak c) eqn:E.
    + by rewrite (words_space c [] (linebreak_is_space c E)).
    + change (flat_map words [[c]]) with (words [c] ++ []).
      apply app_nil_r.
  - rewrite splitlines_cons2. destruct (is_linebreak c) eqn:E.
    + rewrite (words_space c _ (linebreak_is_space c E)).
      change (flat_map words ([] :: ?l)) with (flat_map words l).
      destruct (eqc c (chr 13) && eqc d (chr 10)) eqn:E2; [|exact IHd].
      apply andb_true_iff in E2 as [_ Hd]. apply eqc_true in Hd. subst d.
      rewrite (words_space (chr 10) s) by reflexivity. exact IHs.
    + destruct (splitlines_first d s) as (l & ls & El & Hl).
      rewrite El in *. cbv beta iota.
      change (flat_map words ((c :: l) :: ls))
        with (words (c :: l) ++ flat_map words ls).
      change (flat_map words (l :: ls))
        with (words l ++ flat_map words ls) in IHd.
      destruct (is_space c) eqn:Hc.
      { by rewrite !(words_space c) by exact Hc. }
      rewrite (words_cons c (d :: s) Hc), <- IHd.
      destruct Hl as [[Hd ->]|[Hd (l' & ->)]].
      * rewrite (linebreak_is_space d Hd), (words_cons c [] Hc). reflexivity.
      * rewrite (words_cons c (d :: l') Hc).
        destruct (is_space d) eqn:Hsd; [reflexivity|].
        destruct (words_start d l' Hsd) as (w & ws & ->). reflexivity.
Qed.

Lemma split2_first (d : ascii) (s : str) :
  exists f fs, split2 (d :: s) = f :: fs /\
    (is_space d = true /\ f = [] \/ exists f', f = d :: f').
Proof.
  destruct s as [|e s].
  - exists [d], []. split; [reflexivity|]. right. by eauto.
  - rewrite split2_cons2. destruct (eqc d space && eqc e space) eqn:E.
    + apply andb_true_iff in E as [Hd _]. apply eqc_true in Hd. subst d.
      eexists [], _. split; [reflexivity|]. by left.
    + destruct (split2 (e :: s)) as [|f fs].
      * exists [d], []. split; [reflexivity|]. right. by eauto.
      * exists (d :: f), fs. split; [reflexivity|]. right. by eauto.
Qed.

Lemma words_split2 (s : str) : flat_map words (split2 s) = words s.
Proof.
  induction s as [| c | c d s IHs IHd] using str_ind2.
  - reflexivity.
  - change (flat_map words (split2 [c])) with (words [c] ++ []).
    apply app_nil_r.
  - rewrite split2_cons2. destruct (eqc c space && eqc d space) eqn:E.
    + apply andb_true_iff in E as [Hc Hd].
      apply eqc_true in Hc, Hd. subst c d.
      rewrite !(words_space space) by reflexivity. exact IHs.
    + destruct (split2_first d s) as (f & fs & Ef & Hf).
      rewrite Ef in *. cbv beta iota.
      change (flat_map words ((c :: f) :: fs))
        with (words (c :: f) ++ flat_map words fs).
      change (flat_map words (f :: fs))
        with (words f ++ flat_map words fs) in IHd.
      destruct (is_space c) eqn:Hc.
      { by rewrite !(words_space c) by exact Hc. }
      rewrite (words_cons c (d :: s) Hc), <- IHd.
      destruct Hf as [[Hd ->]|(f' & ->)].
      * rewrite Hd, (words_cons c [] Hc). reflexivity.
      * rewrite (words_cons c (d :: f') Hc).
        destruct (is_space d) eqn:Hsd; [reflexivity|].
        destruct (words_start d f' Hsd) as (w & ws & ->). reflexivity.
Qed.

Lemma flat_map_words_map (f : str -> str) (ls : list str) :
  (forall l, words (f l) = words l) ->
  flat_map words (map f ls) = flat_map words ls.
Proof.
  intros Hf. induction ls as [|l ls IH]; [reflexivity|].
  simpl. by rewrite Hf, IH.
Qed.

Lemma flat_map_words_split2 (ls : list str) :
  flat_map words (flat_map split2 ls) = flat_map words ls.
Proof.
  induction ls as [|l ls IH]; [reflexivity|].
  simpl. by rewrite flat_map_app, words_split2, IH.
Qed.

Lemma flat_map_words_nonempty (ls : list str) :
  flat_map words (List.filter nonempty ls) = flat_map words ls.
Proof.
  induction ls as [|l ls IH]; [reflexivity|].
  simpl. destruct l; simpl; [exact IH | by rewrite IH].
Qed.

Lemma words_join_lines (cs : list str) :
  words (join_lines cs) = flat_map words cs.
Proof.
  induction cs as [|c cs IH]; [reflexivity|].
  destruct cs as [|c' cs].
  - simpl. by rewrite app_nil_r.
  - change (join_lines (c :: c' :: cs))
      with (c ++ newline :: join_lines (c' :: cs)).
    rewrite (words_sep newline) by reflexivity. by rewrite IH.
Qed.

Lemma words_clean_text (text : str) : words (clean_text text) = words text.
Proof.
  unfold clean_text.
  rewrite words_join_lines, flat_map_words_nonempty.
  rewrite (flat_map_words_map strip _ words_strip).
  rewrite flat_map_words_split2.
  rewrite (flat_map_words_map strip _ words_strip).
  apply words_splitlines.
Qed.

(** X24.  Cleaning keeps the words: the text returned for a page has the
    same maximal runs of characters that are not white space as the text of
    the page, in the same order. *)
Theorem filing_text_keeps_words (text : str) :
  words (get_filing_text (ok_reply text)) = words text.
Proof.
  unfold get_filing_text, ok_reply. cbn [status_code json Z.eqb Pos.eqb negb].
  apply words_clean_text.
Qed.

(** ** Keywords in cleaned text *)

Lemma eqc_space_false (a c : ascii) :
  is_space a = false -> is_space c = true -> eqc a c = false.
Proof.
  intros Ha Hc. destruct (eqc a c) eqn:E; [|reflexivity].
  apply eqc_true in E. congruence.
Qed.

Lemma startswith_nil (k : str) : k <> [] -> startswith k [] = false.
Proof. destruct k; [congruence | reflexivity]. Qed.

Lemma first_word_cons (c : ascii) (s : str) :
  is_space c = false ->
  first_word (c :: s) =
  match s with
  | [] => [c]
  | d :: _ => if is_space d then [c] else c :: first_word s
  end.
Proof.
  intros Hc. unfold first_word. rewrite (words_cons c s Hc).
  destruct s as [|d s]; [reflexivity|].
  destruct (is_space d) eqn:Hd; [reflexivity|].
  destruct (words_start d s Hd) as (w & ws & ->). reflexivity.
Qed.

(** A run without white space starts a text exactly when it starts the
    first word of the text. *)
Lemma startswith_first_word (s : str) : forall k : str,
  Forall (fun c => is_space c = false) k ->
  (forall c s', s = c :: s' -> is_space c = false) ->
  startswith k s = startswith k (first_word s).
Proof.
  induction s as [|c s IH]; intros k Hk Hs; [reflexivity|].
  pose proof (Hs c s eq_refl) as Hc.
  rewrite (first_word_cons c s Hc).
  destruct k as [|a k]; [by destruct s as [|d s]; [|destruct (is_space d)]|].
  inversion Hk as [|? ? Ha Hk']; subst.
  destruct s as [|d s]; [reflexivity|].
  destruct (is_space d) eqn:Hd.
  - simpl. f_equal. destruct k as [|b k]; [reflexivity|].
    inversion Hk'; subst. simpl. by rewrite (eqc_space_false b d).
  - change (startswith (a :: k) (c :: d :: s))
      with (eqc a c && startswith k (d :: s)).
    change (startswith (a :: k) (c :: first_word (d :: s)))
      with (eqc a c && startswith k (first_word (d :: s))).
    f_equal. apply IH; [exact Hk'|]. by intros ? ? [= <- <-].
Qed.

(** A keyword of one word occurs in a text exactly when it occurs in one of
    its words. *)
Lemma py_in_words (k : str) : one_word k ->
  forall s : str, py_in k s = existsb (py_in k) (words s).
Proof.
  intros [Hne Hk] s. induction s as [|c s IH].
  - simpl. by rewrite (startswith_nil k Hne).
  - change (py_in k (c :: s)) with (startswith k (c :: s) || py_in k s).
    destruct (is_space c) eqn:Hc.
    + rewrite (words_space c s Hc), <- IH.
      destruct k as [|a k]; [congruence|]. inversion Hk; subst.
      simpl. by rewrite (eqc_space_false a c).
    + rewrite (startswith_first_word (c :: s) k Hk)
        by (by intros ? ? [= <- <-]).
      unfold first_word. rewrite IH.
      destruct (words_start c s Hc) as (w & ws & E). rewrite E.
      rewrite (words_cons c s Hc) in E.
      destruct s as [|d s].
      * injection E as <- <-. simpl. rewrite (startswith_nil k Hne).
        by rewrite !orb_false_r.
      * destruct (is_space d) eqn:Hd.
        { injection E as <- <-.
          change (existsb (py_in k) ([c] :: ?l))
            with (py_in k [c] || existsb (py_in k) l).
          simpl (py_in k [c]). rewrite (startswith_nil k Hne).
          by rewrite !orb_false_r. }
        { destruct (words_start d s Hd) as (w' & ws' & E').
          rewrite E' in *. injection E as <- <-.
          change (existsb (py_in k) ((c :: d :: w') :: ws'))
            with (py_in k (c :: d :: w') || existsb (py_in k) ws').
          change (existsb (py_in k) ((d :: w') :: ws'))
            with (py_in k (d :: w') || existsb (py_in k) ws').
          change (py_in k (c :: d :: w'))
            with (startswith k (c :: d :: w') || py_in k (d :: w')).
          by rewrite !orb_assoc. }
Qed.

Lemma lower_char_space (c : ascii) : is_space (lower_char c) = is_space c.
Proof. destruct c as [[] [] [] [] [] [] [] []]; vm_compute; reflexivity. Qed.

Lemma words_lower (s : str) : words (lower s) = map lower (words s).
Proof.
  induction s as [|c s IH]; [reflexivity|].
  change (lower (c :: s)) with (lower_char c :: lower s).
  destruct (is_space c) eqn:Hc.
  - rewrite (words_space c s Hc), words_space by (by rewrite lower_char_space).
    exact IH.
  - rewrite (words_cons c s Hc), words_cons by (by rewrite lower_char_space).
    destruct s as [|d s]; [reflexivity|].
    change (lower (d :: s)) with (lower_char d :: lower s) in *.
    cbv beta iota. rewrite lower_char_space. destruct (is_space d) eqn:Hd.
    + rewrite IH. reflexivity.
    + rewrite IH. destruct (words_start d s Hd) as (w & ws & ->). reflexivity.
Qed.

Lemma py_in_lower_clean (k text : str) : one_word k ->
  py_in k (lower (clean_text text)) = py_in k (lower text).
Proof.
  intros Hk. rewrite !(py_in_words k Hk), !words_lower, words_clean_text.
  reflexivity.
Qed.

(** X25.  Cleaning neither hides nor brings forth a keyword of one word:
    for keywords that are not empty and hold no white space the detector
    gives the same flag and the same keyword on the text returned for a
    page as on the text of the page itself. *)
Theorem cleaning_keeps_plain_keywords (keywords : list str) (text : str) :
  Forall one_word keywords ->
  let '(found, _, keyword) :=
    contains_product_info_with keywords (get_filing_text (ok_reply text)) in
  let '(found', _, keyword') := contains_product_info_with keywords text in
  found = found' /\ keyword = keyword'.
Proof.
  unfold get_filing_text, ok_reply. cbn [status_code json Z.eqb Pos.eqb negb].
  unfold contains_product_info_with.
  induction 1 as [|k ks Hk _ IH]; simpl; [by split|].
  rewrite (py_in_lower_clean k text Hk).
  destruct (py_in k (lower text)); [by split | exact IH].
Qed.

Lemma cleaning_keeps_plain_keywords_witness :
  Forall one_word plain_keywords /\
  let '(found, _, keyword) :=
    contains_product_info_with plain_keywords
      (get_filing_text (ok_reply sample_text)) in
  let '(found', _, keyword') :=
    contains_product_info_with plain_keywords sample_text in
  found = found' /\ keyword = keyword'.
Proof.
  assert (H : Forall one_word plain_keywords).
  { repeat constructor; try discriminate. }
  split; [exact H|].
  exact (cleaning_keeps_plain_keywords plain_keywords sample_text H).
Defined.
